(** * pint: the formatter helpers of [pint/delegates/formatter/_helpers.py]

    A shallow embedding of the unit-expression formatter ([formatter],
    [_join], [_pretty_fmt_exponent]), of the format-specification splitter
    ([_parse_spec],
    [extract_custom_flags], [remove_custom_flags], [split_format]) and of
    [join_mu], followed by the properties established about them.

    Modelling conventions.
    - A Python [str] is a [string]; every [ascii] stands for the code point
      of the same number, so the strings covered are those whose code points
      lie below 256.
    - A [Number] exponent is an exact rational of [Q]; [==], [>] and [abs]
      are [Qeq_bool], the strict order of [Q] and [Qabs].  A Python [int]
      [n] is [inject_Z n].
    - A function that may raise returns an [outcome]; [warnings.warn] appends
      to a log that is returned next to the value.
    - [_FORMATTERS] lives in [pint/formatting.py]; only its keys are used
      here, so every function that imports it takes the list of its keys, in
      the insertion order of the dictionary, as the argument [formatters].
      [extract_custom_flags] turns the flags into a regular expression
      without escaping them; the alternatives are modelled as literal text,
      which is what the code does on the registries of [literal_flags]. *)

From Stdlib Require Import String Ascii List Bool Arith ZArith QArith Qabs Lia.
From Stdlib Require Import DecimalString Sorted Permutation.
From Stdlib Require OrderedTypeEx DecimalPos DecimalZ Qreduction.
Import ListNotations.

Close Scope Q_scope.
Open Scope list_scope.
Open Scope string_scope.

(** ** Exceptions and results *)

Inductive exn : Type :=
| ValueError (msg : string)
| IndexError (index : nat)
| Unmodelled.

Inductive outcome (A : Type) : Type :=
| Ok (a : A)
| Raise (e : exn).

Arguments Ok {A} a.
Arguments Raise {A} e.

Definition bind {A B : Type} (r : outcome A) (k : A -> outcome B) : outcome B :=
  match r with
  | Ok a => k a
  | Raise e => Raise e
  end.

Notation "x <- r ;; k" := (bind r (fun x => k))
  (at level 61, r at next level, right associativity).

(** ** Strings *)

Module Str.

(** One-character string. *)
Definition of_char (c : ascii) : string := String c EmptyString.

(** [not s]: the empty string is the only falsy one. *)
Definition is_empty (s : string) : bool :=
  match s with
  | EmptyString => true
  | String _ _ => false
  end.

(** [a or b] on strings. *)
Definition or_else (a b : string) : string :=
  if is_empty a then b else a.

(** [s.startswith(p)]. *)
Definition startswith (s p : string) : bool := String.prefix p s.

(** [s[n:]] for a non-negative [n]. *)
Fixpoint slice_from (n : nat) (s : string) : string :=
  match n, s with
  | O, _ => s
  | S _, EmptyString => EmptyString
  | S k, String _ s' => slice_from k s'
  end.

(** [reversed(s)], as the list of characters it yields. *)
Fixpoint reversed (s : string) : list ascii :=
  match s with
  | EmptyString => []
  | String c s' => (reversed s' ++ [c])%list
  end.

(** [c in s] for a character [c]. *)
Fixpoint mem (c : ascii) (s : string) : bool :=
  match s with
  | EmptyString => false
  | String d s' => Ascii.eqb c d || mem c s'
  end.

(** [x in l] for a list of strings. *)
Fixpoint mem_list (x : string) (l : list string) : bool :=
  match l with
  | [] => false
  | y :: l' => String.eqb x y || mem_list x l'
  end.

(** ASCII decimal digits: the only code points below 256 that Unicode
    classes as decimal, hence the ones [\d] and a replacement-field index
    accept. *)
Definition is_digit (c : ascii) : bool :=
  let n := nat_of_ascii c in (48 <=? n)%nat && (n <=? 57)%nat.

Definition digit_value (c : ascii) : nat := nat_of_ascii c - 48.

(** [c.isalpha()] on the code points below 256: the ASCII letters, the
    ordinal indicators, the micro sign and the Latin-1 letters. *)
Definition isalpha (c : ascii) : bool :=
  let n := nat_of_ascii c in
  ((65 <=? n) && (n <=? 90) || (97 <=? n) && (n <=? 122)
   || (n =? 170) || (n =? 181) || (n =? 186)
   || (192 <=? n) && (n <=? 214) || (216 <=? n) && (n <=? 246)
   || (248 <=? n) && (n <=? 255))%nat.

(** [s.replace(old, "")]: the occurrences of [old] are found from left
    to right, without overlap, and dropped.  [skip] counts the characters
    of the current occurrence still to drop.  With [old] empty the result
    is [s]. *)
Fixpoint remove_from (old : string) (skip : nat) (s : string) : string :=
  match s with
  | EmptyString => EmptyString
  | String c s' =>
      match skip with
      | S k => remove_from old k s'
      | O =>
          if is_empty old then String c (remove_from old O s')
          else if String.prefix old s
               then remove_from old (String.length old - 1) s'
               else String c (remove_from old O s')
      end
  end.

Definition remove (old s : string) : string := remove_from old 0 s.

End Str.

(** ** [str.format] with positional string arguments

    The fragment modelled is the one the defaults of this module use:
    literal text, the escapes [{{] and [}}], automatic fields [{}] and
    indexed fields [{0}], [{1}], ...  A field with a conversion, a format
    specification, an attribute or a keyword name ends in [Unmodelled]. *)

Module Format.

Inductive numbering : Type :=
| Unnumbered
| Automatic (next : nat)
| Manual.

(** Where the scanner stands: in literal text, just after a [{], inside
    the digits of an index, or just after a [}] in literal text. *)
Inductive mode : Type :=
| Literal
| Opened
| Index (n : nat)
| Closed.

Definition arg (args : list string) (i : nat) : outcome string :=
  match nth_error args i with
  | Some a => Ok a
  | None => Raise (IndexError i)
  end.

Definition auto_field (args : list string) (num : numbering)
  : outcome (string * numbering) :=
  match num with
  | Manual =>
      Raise (ValueError
        "cannot switch from manual field specification to automatic field numbering")
  | Unnumbered => a <- arg args 0 ;; Ok (a, Automatic 1)
  | Automatic k => a <- arg args k ;; Ok (a, Automatic (S k))
  end.

Definition manual_field (args : list string) (num : numbering) (i : nat)
  : outcome (string * numbering) :=
  match num with
  | Automatic _ =>
      Raise (ValueError
        "cannot switch from automatic field numbering to manual field specification")
  | _ => a <- arg args i ;; Ok (a, Manual)
  end.

Fixpoint go (args : list string) (m : mode) (num : numbering) (s : string)
  : outcome string :=
  match s with
  | EmptyString =>
      match m with
      | Literal => Ok ""
      | Opened => Raise (ValueError "Single '{' encountered in format string")
      | Index _ => Raise (ValueError "expected '}' before end of string")
      | Closed => Raise (ValueError "Single '}' encountered in format string")
      end
  | String c s' =>
      match m with
      | Literal =>
          if Ascii.eqb c "{" then go args Opened num s'
          else if Ascii.eqb c "}" then go args Closed num s'
          else rest <- go args Literal num s' ;; Ok (String c rest)
      | Opened =>
          if Ascii.eqb c "{" then
            rest <- go args Literal num s' ;; Ok (String "{" rest)
          else if Ascii.eqb c "}" then
            f <- auto_field args num ;;
            rest <- go args Literal (snd f) s' ;; Ok (fst f ++ rest)
          else if Str.is_digit c then go args (Index (Str.digit_value c)) num s'
          else Raise Unmodelled
      | Index n =>
          if Str.is_digit c then go args (Index (10 * n + Str.digit_value c)) num s'
          else if Ascii.eqb c "}" then
            f <- manual_field args num n ;;
            rest <- go args Literal (snd f) s' ;; Ok (fst f ++ rest)
          else Raise Unmodelled
      | Closed =>
          if Ascii.eqb c "}" then
            rest <- go args Literal num s' ;; Ok (String "}" rest)
          else Raise (ValueError "Single '}' encountered in format string")
      end
  end.

(** [fmt.format( *args )]. *)
Definition format (fmt : string) (args : list string) : outcome string :=
  go args Literal Unnumbered fmt.

End Format.

(** ** The regular expressions of the module *)

Module Re.

(** [re.compile(r"{\d*}").search(s)] as a truth value.  [opened] holds
    when the characters read last are a [{] followed by digits only. *)
Fixpoint search_marker (opened : bool) (s : string) : bool :=
  match s with
  | EmptyString => false
  | String c s' =>
      if Ascii.eqb c "{" then search_marker true s'
      else if opened && Ascii.eqb c "}" then true
      else search_marker (opened && Str.is_digit c) s'
  end.

(** The first alternative of [alts], in order, that matches at the
    start of [s]. *)
Fixpoint first_match (alts : list string) (s : string) : option string :=
  match alts with
  | [] => None
  | a :: alts' => if String.prefix a s then Some a else first_match alts' s
  end.

Definition nonempty (alts : list string) : list string :=
  filter (fun a => negb (Str.is_empty a)) alts.

(** [re.compile("(" + "|".join(alts) + ")").findall(s)] for literal
    alternatives.  [skip] counts the characters of the last match still
    to pass.  After an empty match the search resumes at the same
    position and has to advance, so only a non-empty alternative can
    match there. *)
Fixpoint findall_from (alts : list string) (skip : nat) (s : string)
  : list string :=
  match s with
  | EmptyString =>
      match first_match alts EmptyString with
      | Some m => [m]
      | None => []
      end
  | String c s' =>
      match skip with
      | S k => findall_from alts k s'
      | O =>
          match first_match alts s with
          | Some m =>
              if Str.is_empty m then
                m :: match first_match (nonempty alts) s with
                     | Some m' => m' :: findall_from alts (String.length m' - 1) s'
                     | None => findall_from alts 0 s'
                     end
              else m :: findall_from alts (String.length m - 1) s'
          | None => findall_from alts 0 s'
          end
      end
  end.

Definition findall (alts : list string) (s : string) : list string :=
  findall_from alts 0 s.

End Re.

(** ** [sorted]

    A stable sort: [lt y x] tells that [y] goes strictly before [x], and
    elements that compare equal keep the order they came in. *)

Section Sorted.

Context {A : Type}.
Variable lt : A -> A -> bool.

Fixpoint insert (x : A) (l : list A) : list A :=
  match l with
  | [] => [x]
  | y :: l' => if lt y x then y :: insert x l' else x :: l
  end.

Definition sorted (l : list A) : list A := fold_right insert [] l.

(** [x] may stand before [y]: [y] does not go strictly before [x]. *)
Definition not_after (x y : A) : Prop := lt y x = false.

End Sorted.

(** ** The expression formatter *)

Definition FORMATTER : Type := Q -> string.

(** [x < y] on exponents. *)
Definition Qltb (x y : Q) : bool := negb (Qle_bool y x).

(** [a < b] on [(symbol, exponent)] tuples: the first component that
    differs decides. *)
Definition tuple_ltb (a b : string * Q) : bool :=
  if String.eqb (fst a) (fst b)
  then if Qeq_bool (snd a) (snd b) then false else Qltb (snd a) (snd b)
  else String.ltb (fst a) (fst b).

(** The loop of [_join] over the elements after the first. *)
Fixpoint _join_fold (fmt first : string) (miter : list string) : outcome string :=
  match miter with
  | [] => Ok first
  | val :: miter' =>
      ret <- Format.format fmt [first; val] ;;
      _join_fold fmt ret miter'
  end.

Definition _join (fmt : string) (iterable : list string) : outcome string :=
  match iterable with
  | [] => Ok ""
  | first :: miter =>
      if negb (Re.search_marker false fmt) then Ok (String.concat fmt iterable)
      else _join_fold fmt first miter
  end.

(** The body of the loop of [formatter] over one [(key, value)] item;
    [fun_] is the exponent renderer chosen from [as_ratio]. *)
Definition add_term (as_ratio : bool) (power_fmt : string) (fun_ : FORMATTER)
  (terms : list string * list string) (item : string * Q)
  : outcome (list string * list string) :=
  let '(pos_terms, neg_terms) := terms in
  let '(key, value) := item in
  if Qeq_bool value 1 then Ok ((pos_terms ++ [key])%list, neg_terms)
  else if Qltb 0 value then
    t <- Format.format power_fmt [key; fun_ value] ;;
    Ok ((pos_terms ++ [t])%list, neg_terms)
  else if Qeq_bool value (-1) && as_ratio then
    Ok (pos_terms, (neg_terms ++ [key])%list)
  else
    t <- Format.format power_fmt [key; fun_ value] ;;
    Ok (pos_terms, (neg_terms ++ [t])%list).

Fixpoint add_terms (as_ratio : bool) (power_fmt : string) (fun_ : FORMATTER)
  (terms : list string * list string) (items : list (string * Q))
  : outcome (list string * list string) :=
  match items with
  | [] => Ok terms
  | item :: items' =>
      terms' <- add_term as_ratio power_fmt fun_ terms item ;;
      add_terms as_ratio power_fmt fun_ terms' items'
  end.

Definition formatter (items : list (string * Q))
  (as_ratio single_denominator : bool)
  (product_fmt division_fmt power_fmt parentheses_fmt : string)
  (exp_call : FORMATTER) (sort : bool) : outcome string :=
  let items := if sort then sorted tuple_ltb items else items in
  match items with
  | [] => Ok ""
  | _ :: _ =>
      let fun_ := if as_ratio then (fun x => exp_call (Qabs x)) else exp_call in
      terms <- add_terms as_ratio power_fmt fun_ ([], []) items ;;
      let '(pos_terms, neg_terms) := terms in
      if negb as_ratio then _join product_fmt (pos_terms ++ neg_terms)%list
      else
        pos_joined <- _join product_fmt pos_terms ;;
        let pos_ret := Str.or_else pos_joined "1" in
        match neg_terms with
        | [] => Ok pos_ret
        | _ :: _ =>
            neg_ret <-
              (if single_denominator then
                 neg_ret <- _join product_fmt neg_terms ;;
                 if (1 <? List.length neg_terms)%nat
                 then Format.format parentheses_fmt [neg_ret]
                 else Ok neg_ret
               else _join division_fmt neg_terms) ;;
            _join division_fmt [pos_ret; neg_ret]
        end
  end.

(** The default values of the keyword arguments of [formatter]. *)
Definition default_product_fmt : string := " * ".
Definition default_division_fmt : string := " / ".
Definition default_power_fmt : string := "{} ** {}".
Definition default_parentheses_fmt : string := "({0})".

(** ["{:n}".format], the default [exp_call].  An integral exponent is
    printed as a Python [int] is in a locale without digit grouping: in
    decimal, with a leading [-] below zero.  The text of any other exponent
    comes from the float formatting of the platform and is left to
    [nonintegral]. *)
Definition format_n (nonintegral : FORMATTER) : FORMATTER :=
  fun x =>
    let r := Qred x in
    if (Qden r =? 1)%positive
    then NilZero.string_of_int (Z.to_int (Qnum r))
    else nonintegral x.

(** [formatter(items, ...)] with every keyword argument left out except
    the three flags. *)
Definition formatter_with_defaults (nonintegral : FORMATTER)
  (items : list (string * Q)) (as_ratio single_denominator sort : bool)
  : outcome string :=
  formatter items as_ratio single_denominator
    default_product_fmt default_division_fmt default_power_fmt
    default_parentheses_fmt (format_n nonintegral) sort.

(** ** Pretty exponents

    The superscript characters lie beyond the code points a [string]
    holds, so the result of [_pretty_fmt_exponent] is a list of code
    points. *)

Definition code_points (s : string) : list N :=
  map N_of_ascii (list_ascii_of_string s).

(** The superscript digits 0 to 9: U+2070, U+00B9, U+00B2, U+00B3 and
    U+2074 to U+2079. *)
Definition _PRETTY_EXPONENTS : list N :=
  [8304; 185; 178; 179; 8308; 8309; 8310; 8311; 8312; 8313]%N.

(** [s.replace(old, new)] for one-character [old] and [new]. *)
Definition replace_char (old new : N) (s : list N) : list N :=
  map (fun c => if N.eqb c old then new else c) s.

(** The minus sign (45) becomes the superscript minus U+207B, the
    decimal point (46) the dot operator U+22C5, then the digit [n], of code
    point [48 + n], becomes [_PRETTY_EXPONENTS[n]] for [n] from 0 to 9. *)
Definition _pretty_fmt_exponent (nonintegral : FORMATTER) (num : Q) : list N :=
  let ret := code_points (format_n nonintegral num) in
  let ret := replace_char 45 8315 ret in
  let ret := replace_char 46 8901 ret in
  fold_left
    (fun ret n =>
       replace_char (48 + N.of_nat n) (nth n _PRETTY_EXPONENTS 0%N) ret)
    (seq 0 10) ret.

(** ** The format-specification splitter *)

Definition _BASIC_TYPES : string := "bcdeEfFgGnosxX%uS".

(** The loop of [_parse_spec] over the characters of [reversed(spec)];
    [result] is the flag found so far. *)
Fixpoint _parse_spec_loop (formatters : list string) (result : string)
  (chars : list ascii) : outcome string :=
  match chars with
  | [] => Ok result
  | ch :: chars' =>
      if Ascii.eqb ch "~" || Str.mem ch _BASIC_TYPES then
        _parse_spec_loop formatters result chars'
      else if Str.mem_list (Str.of_char ch) (formatters ++ ["~"])%list then
        if negb (Str.is_empty result)
        then Raise (ValueError "expected ':' after format specifier")
        else _parse_spec_loop formatters (Str.of_char ch) chars'
      else if Str.isalpha ch then
        Raise (ValueError ("Unknown conversion specified " ++ Str.of_char ch))
      else Ok result
  end.

Definition _parse_spec (formatters : list string) (spec : string)
  : outcome string :=
  _parse_spec_loop formatters "" (Str.reversed spec).

(** The order of [sorted(..., key=len, reverse=True)]: [y] goes strictly
    before [x] when it is strictly longer. *)
Definition longer (y x : string) : bool :=
  (String.length x <? String.length y)%nat.

(** The source joins the flags, unescaped, into the pattern
    ["(" + "|".join(known_flags + ["~"]) + ")"].  The model reads every flag
    as literal text, which is what that pattern means when no flag has a
    character special in a regular expression; the statements about this
    function, and about [split_format] which calls it, are for such
    registries ([literal_flags] below). *)
Definition extract_custom_flags (formatters : list string) (spec : string)
  : string :=
  if Str.is_empty spec then ""
  else
    let known_flags := sorted longer formatters in
    let custom_flags := Re.findall (known_flags ++ ["~"])%list spec in
    String.concat "" custom_flags.

Definition remove_custom_flags (formatters : list string) (spec : string)
  : string :=
  fold_left
    (fun spec flag => if negb (Str.is_empty flag) then Str.remove flag spec else spec)
    (sorted longer formatters ++ ["~"])%list
    spec.

(** What [warnings.warn] is called with. *)
Inductive warning : Type :=
| DeprecationWarning (msg : string).

Definition unit_warning : warning :=
  DeprecationWarning
    ("The given format spec does not contain a unit formatter."
     ++ " Falling back to the builtin defaults, but in the future"
     ++ " the unit formatter specified in the `default_format`"
     ++ " attribute will be used instead.").

Definition magnitude_warning : warning :=
  DeprecationWarning
    ("The given format spec does not contain a magnitude formatter."
     ++ " Falling back to the builtin defaults, but in the future"
     ++ " the magnitude formatter specified in the `default_format`"
     ++ " attribute will be used instead.").

(** [separate_format_defaults] is [True], [False] or [None]: an
    [option bool].  The value comes with the warnings issued, in order. *)
Definition split_format (formatters : list string) (spec default : string)
  (separate_format_defaults : option bool)
  : (string * string) * list warning :=
  let mspec := remove_custom_flags formatters spec in
  let uspec := extract_custom_flags formatters spec in
  let default_mspec := remove_custom_flags formatters default in
  let default_uspec := extract_custom_flags formatters default in
  match separate_format_defaults with
  | Some false | None =>
      if negb (Str.is_empty spec)
         && match separate_format_defaults with None => true | Some _ => false end
      then
        let w1 := if Str.is_empty uspec && negb (Str.is_empty default_uspec)
                  then [unit_warning] else [] in
        let w2 := if Str.is_empty mspec && negb (Str.is_empty default_mspec)
                  then [magnitude_warning] else [] in
        ((mspec, uspec), (w1 ++ w2)%list)
      else if Str.is_empty spec then ((default_mspec, default_uspec), [])
      else ((mspec, uspec), [])
  | Some true =>
      ((Str.or_else mspec default_mspec, Str.or_else uspec default_uspec), [])
  end.

(** ** The join helper *)

Definition join_mu (joint_fstring mstr ustr : string) : outcome string :=
  if Str.startswith ustr "1 / "
  then Format.format joint_fstring [mstr; Str.slice_from 2 ustr]
  else Format.format joint_fstring [mstr; ustr].

(** ** Vocabulary of the statements *)

(** The characters [_parse_spec] passes over without looking at the
    registry: the marker [~] and the basic types. *)
Definition skipped (ch : ascii) : bool :=
  Ascii.eqb ch "~" || Str.mem ch _BASIC_TYPES.

(** The characters [_parse_spec] takes as a custom flag: those that are
    not passed over and are, as one-character strings, keys of the
    registry. *)
Definition is_flag (formatters : list string) (ch : ascii) : bool :=
  negb (skipped ch) && Str.mem_list (Str.of_char ch) (formatters ++ ["~"])%list.

(** The characters that make [_parse_spec] raise its malformed-specifier
    error: alphabetic, neither passed over nor a flag. *)
Definition unknown_conversion (formatters : list string) (ch : ascii) : bool :=
  negb (skipped ch) && negb (is_flag formatters ch) && Str.isalpha ch.

(** The characters at which [_parse_spec] stops without error. *)
Definition boundary (formatters : list string) (ch : ascii) : bool :=
  negb (skipped ch) && negb (is_flag formatters ch) && negb (Str.isalpha ch).

(** The characters of a string, first to last. *)
Definition chars (s : string) : list ascii := list_ascii_of_string s.

(** Number of custom-flag characters of a string. *)
Definition flag_count (formatters : list string) (s : string) : nat :=
  List.length (filter (is_flag formatters) (chars s)).

(** Every character of [s] is passed over or is a flag. *)
Definition scannable (formatters : list string) (s : string) : bool :=
  forallb (fun ch => skipped ch || is_flag formatters ch) (chars s).

(** The characters with a meaning of their own in a regular expression.
    [extract_custom_flags] joins the flags into a pattern without escaping
    them, so its model holds for the registries whose flags avoid them. *)
Definition regex_special : string := ".^$*+?{}[]\|()".

Definition literal_flag (flag : string) : bool :=
  forallb (fun c => negb (Str.mem c regex_special)) (chars flag).

Definition literal_flags (formatters : list string) : bool :=
  forallb literal_flag formatters.

(** Every non-empty flag of the registry contains a character that is a
    flag by itself, or the marker [~]. *)
Definition covered (formatters : list string) : Prop :=
  forall flag, In flag formatters -> flag <> "" ->
    exists c, Str.mem c flag = true
              /\ (In (Str.of_char c) formatters \/ c = "~"%char).

(** The two errors of [_parse_spec]. *)
Definition expected_colon : exn :=
  ValueError "expected ':' after format specifier".

Definition unknown_conversion_error (ch : ascii) : exn :=
  ValueError ("Unknown conversion specified " ++ Str.of_char ch).

(** What the flags met so far weigh: the one held in [result], if any,
    and those of the characters [l]. *)
Definition flags_met (formatters : list string) (result : string)
  (l : list ascii) : nat :=
  (if Str.is_empty result then 0 else 1)
  + List.length (filter (is_flag formatters) l).

Definition passable (formatters : list string) (l : list ascii) : bool :=
  forallb (fun ch => skipped ch || is_flag formatters ch) l.

(** The body of the loop of [remove_custom_flags]. *)
Definition remove_step (spec flag : string) : string :=
  if negb (Str.is_empty flag) then Str.remove flag spec else spec.

(** No non-empty alternative can match anywhere in [s]: each of them has
    a character that [s] lacks. *)
Definition unmatched (alts : list string) (s : string) : Prop :=
  forall a, In a alts -> a <> "" ->
    exists c, Str.mem c a = true /\ Str.mem c s = false.

(** The items of the positive bucket: those with an exponent above 0. *)
Definition positive_item (item : string * Q) : bool := Qltb 0 (snd item).

Definition nonpositive_item (item : string * Q) : bool :=
  negb (positive_item item).

(** What the default [power_fmt] makes of a symbol and a rendered
    exponent. *)
Definition power (key exponent : string) : string :=
  key ++ " ** " ++ exponent.

(** The term of an item in the positive and in the negative bucket under
    the default [power_fmt]. *)
Definition pos_term (fun_ : FORMATTER) (item : string * Q) : string :=
  if Qeq_bool (snd item) 1 then fst item
  else power (fst item) (fun_ (snd item)).

Definition neg_term (as_ratio : bool) (fun_ : FORMATTER) (item : string * Q)
  : string :=
  if Qeq_bool (snd item) (-1) && as_ratio then fst item
  else power (fst item) (fun_ (snd item)).


(** A separator without braces, which [str.format] copies as it is. *)
Definition brace_free (sep : string) : bool :=
  negb (Str.mem "{" sep) && negb (Str.mem "}" sep).

(** [s] is [t] with some characters left out. *)
Inductive subsequence : string -> string -> Prop :=
| subsequence_empty : subsequence "" ""
| subsequence_drop (c : ascii) (s t : string) :
    subsequence s t -> subsequence s (String c t)
| subsequence_keep (c : ascii) (s t : string) :
    subsequence s t -> subsequence (String c s) (String c t).

(** The characters that are, as one-character strings, flags of the
    registry, or the marker [~]. *)
Definition flag_char (formatters : list string) (c : ascii) : bool :=
  Str.mem_list (Str.of_char c) (formatters ++ ["~"])%list.

(** Every alternative is a single character. *)
Definition one_char (alts : list string) : Prop :=
  forall a, In a alts -> String.length a = 1.

(** The order of the symbols alone, which is the order of the tuples
    when no symbol occurs twice. *)
Definition symbol_lt (a b : string * Q) : Prop :=
  OrderedTypeEx.String_as_OT.lt (fst a) (fst b).

(** What [_pretty_fmt_exponent] makes of one character. *)
Definition pretty_char (c : N) : N :=
  if (c =? 45)%N then 8315%N
  else if (c =? 46)%N then 8901%N
  else if ((48 <=? c) && (c <=? 57))%N
       then nth (N.to_nat (c - 48)) _PRETTY_EXPONENTS c
       else c.

(** The characters [_pretty_fmt_exponent] replaces: minus sign, decimal
    point and ASCII digits. *)
Definition plain_char (c : N) : bool :=
  ((c =? 45) || (c =? 46) || ((48 <=? c) && (c <=? 57)))%N.

(** The superscript minus and the superscript digits. *)
Definition superscript (c : N) : Prop :=
  c = 8315%N \/ In c _PRETTY_EXPONENTS.

(** The exponents that are integers. *)
Definition integral (x : Q) : Prop := Qden (Qred x) = 1%positive.

(** The characters of the decimal writing of an integer: the minus sign
    and the ASCII digits. *)
Definition decimal_char (c : N) : Prop :=
  (c = 45 \/ c = 48 \/ c = 49 \/ c = 50 \/ c = 51 \/ c = 52 \/ c = 53
   \/ c = 54 \/ c = 55 \/ c = 56 \/ c = 57)%N.

(** ** Properties of [split_format] *)

Lemma is_empty_true (s : string) : Str.is_empty s = true <-> s = "".
Proof. destruct s; simpl; split; congruence. Qed.

Lemma is_empty_false (s : string) : Str.is_empty s = false <-> s <> "".
Proof. destruct s; simpl; split; congruence. Qed.

Lemma or_else_self (a b : string) :
  a = Str.or_else a b <-> a <> "" \/ b = "".
Proof.
  unfold Str.or_else. destruct a as [|c a]; simpl.
  - split; [intros ->; now right | intros [H | ->]; congruence].
  - split; [intros _; left; discriminate | reflexivity].
Qed.

Lemma remove_empty (old : string) (skip : nat) : Str.remove_from old skip "" = "".
Proof. reflexivity. Qed.

Lemma remove_custom_flags_empty (formatters : list string) :
  remove_custom_flags formatters "" = "".
Proof.
  unfold remove_custom_flags.
  induction (sorted longer formatters ++ ["~"])%list as [|flag flags IH]; simpl.
  - reflexivity.
  - destruct (Str.is_empty flag); simpl; exact IH.
Qed.

Lemma extract_custom_flags_empty (formatters : list string) :
  extract_custom_flags formatters "" = "".
Proof. reflexivity. Qed.

(** C1, as the code has it, on a registry of literal flags.  With
    [separate_format_defaults = False] no warning is ever issued.  With an
    empty [spec] the pair returned is made of the two parts of the default,
    which is also what [separate_format_defaults = True] returns; with a
    non-empty [spec] it is the pair taken from [spec] alone, without any
    fallback, so the two policies agree exactly when [spec] is empty or no
    field of [spec] that is empty has a non-empty default. *)
Theorem split_format_false_vs_true (formatters : list string) (spec default : string) :
  literal_flags formatters = true ->
  let strict := split_format formatters spec default (Some false) in
  let merge := split_format formatters spec default (Some true) in
  let mspec := remove_custom_flags formatters spec in
  let uspec := extract_custom_flags formatters spec in
  snd strict = []
  /\ snd merge = []
  /\ fst strict = (if Str.is_empty spec then fst merge else (mspec, uspec))
  /\ (fst strict = fst merge <->
      spec = ""
      \/ ((mspec <> "" \/ remove_custom_flags formatters default = "")
          /\ (uspec <> "" \/ extract_custom_flags formatters default = "")))
  /\ (spec = "" ->
      fst strict = (remove_custom_flags formatters default,
                    extract_custom_flags formatters default)
      /\ fst merge = (remove_custom_flags formatters default,
                      extract_custom_flags formatters default)).
Proof.
  intros _ strict merge mspec uspec.
  subst strict merge mspec uspec. unfold split_format.
  destruct spec as [|c spec].
  - rewrite remove_custom_flags_empty, extract_custom_flags_empty. simpl.
    repeat split; auto.
  - cbn [Str.is_empty negb andb fst snd].
    repeat split; try reflexivity; try discriminate.
    + intros H. right. injection H as Hm Hu.
      apply or_else_self in Hm. apply or_else_self in Hu. auto.
    + intros [H | [Hm Hu]]; [discriminate |].
      apply or_else_self in Hm. apply or_else_self in Hu.
      now rewrite <- Hm, <- Hu.
Qed.

(** C1 as stated fails: with the registry [P], the spec [P] and the
    default [.3f], [False] leaves the magnitude spec empty where [True]
    falls back to [.3f]. *)
Lemma split_format_false_differs_from_true :
  split_format ["P"] "P" ".3f" (Some false) = (("", "P"), [])
  /\ split_format ["P"] "P" ".3f" (Some true) = ((".3f", "P"), [])
  /\ fst (split_format ["P"] "P" ".3f" (Some false))
     <> fst (split_format ["P"] "P" ".3f" (Some true)).
Proof. repeat split; try reflexivity. vm_compute. discriminate. Qed.

Lemma split_format_false_vs_true_witness :
  literal_flags ["P"; "L"] = true
  /\ fst (split_format ["P"; "L"] "" ".3fP" (Some false)) = (".3f", "P").
Proof.
  assert (H : literal_flags ["P"; "L"] = true) by reflexivity.
  split; [exact H |].
  apply (proj2 (proj2 (proj2 (proj2
           (split_format_false_vs_true ["P"; "L"] "" ".3fP" H))))).
  reflexivity.
Defined.

(** C2, as the code has it, on a registry of literal flags.  With
    [separate_format_defaults = None] and a non-empty [spec], the pair
    returned is the one taken from [spec] alone.
    A field of it that is empty while the default has one gets its
    deprecation warning (the unit one first) and stays empty: the default's
    value is not put in its place. *)
Theorem split_format_none_warns (formatters : list string) (spec default : string) :
  literal_flags formatters = true ->
  spec <> "" ->
  let mspec := remove_custom_flags formatters spec in
  let uspec := extract_custom_flags formatters spec in
  let default_mspec := remove_custom_flags formatters default in
  let default_uspec := extract_custom_flags formatters default in
  let out := split_format formatters spec default None in
  fst out = (mspec, uspec)
  /\ snd out =
       ((if Str.is_empty uspec && negb (Str.is_empty default_uspec)
         then [unit_warning] else [])
        ++ (if Str.is_empty mspec && negb (Str.is_empty default_mspec)
            then [magnitude_warning] else []))%list
  /\ (uspec = "" -> default_uspec <> "" ->
      In unit_warning (snd out) /\ snd (fst out) = "")
  /\ (mspec = "" -> default_mspec <> "" ->
      In magnitude_warning (snd out) /\ fst (fst out) = "").
Proof.
  intros _ Hspec mspec uspec default_mspec default_uspec out.
  assert (E : out = ((mspec, uspec),
      ((if Str.is_empty uspec && negb (Str.is_empty default_uspec)
        then [unit_warning] else [])
       ++ (if Str.is_empty mspec && negb (Str.is_empty default_mspec)
           then [magnitude_warning] else []))%list)).
  { subst out. unfold split_format.
    apply is_empty_false in Hspec. rewrite Hspec. reflexivity. }
  rewrite E. cbn [fst snd]. repeat split; try assumption.
  - apply in_or_app. left.
    apply is_empty_true in H. apply is_empty_false in H0.
    rewrite H, H0. simpl. now left.
  - apply in_or_app. right.
    apply is_empty_true in H. apply is_empty_false in H0.
    rewrite H, H0. simpl. now left.
Qed.

(** C2 as stated fails: with the registry [P], the spec [P] and the
    default [.3f], the magnitude warning is issued but the magnitude spec
    returned is empty, not the [.3f] of the default. *)
Lemma split_format_none_keeps_empty_field :
  split_format ["P"] "P" ".3f" None = (("", "P"), [magnitude_warning])
  /\ remove_custom_flags ["P"] ".3f" = ".3f"
  /\ fst (fst (split_format ["P"] "P" ".3f" None))
     <> remove_custom_flags ["P"] ".3f".
Proof. repeat split; try reflexivity. vm_compute. discriminate. Qed.

Lemma split_format_none_warns_witness :
  literal_flags ["P"; "L"] = true
  /\ "P" <> "" /\ fst (split_format ["P"; "L"] "P" ".3fL" None) = ("", "P").
Proof.
  assert (L : literal_flags ["P"; "L"] = true) by reflexivity.
  assert (H : "P" <> "") by discriminate.
  split; [exact L | split; [exact H |]].
  exact (proj1 (split_format_none_warns ["P"; "L"] "P" ".3fL" L H)).
Defined.

(** ** Properties of [join_mu] *)

Lemma prefix_cons_inv (a b : ascii) (p s : string) :
  String.prefix (String a p) (String b s) = true ->
  a = b /\ String.prefix p s = true.
Proof.
  cbn [String.prefix]. destruct (ascii_dec a b); [auto | discriminate].
Qed.

Lemma prefix_app (p s : string) :
  String.prefix p s = true -> exists rest, s = p ++ rest.
Proof.
  revert s. induction p as [|a p IH]; intros s H.
  - now exists s.
  - destruct s as [|b s]; [discriminate H |].
    apply prefix_cons_inv in H. destruct H as [-> H].
    destruct (IH s H) as [rest ->]. now exists rest.
Qed.

(** C5.  When the unit string is ["1 / "] followed by anything, the
    template is applied to the magnitude and to the unit string without its
    first two characters, that is to ["/ "] followed by the rest; when the
    unit string does not start with ["1 / "] the template is applied to the
    two strings as they are.  The two examples of the specification
    follow. *)
Theorem join_mu_reciprocal (template m u : string) :
  (forall rest, join_mu template m ("1 / " ++ rest)
                = Format.format template [m; "/ " ++ rest])
  /\ ((forall rest, u <> "1 / " ++ rest) ->
      join_mu template m u = Format.format template [m; u])
  /\ join_mu "{} {}" "5" "1 / s" = Ok "5 / s"
  /\ join_mu "{} {}" "5" "m / s" = Ok "5 m / s".
Proof.
  split; [| split; [| split; reflexivity]].
  - intros rest. unfold join_mu, Str.startswith. now destruct rest.
  - intros H. unfold join_mu.
    destruct (Str.startswith u "1 / ") eqn:E; [| reflexivity].
    apply prefix_app in E. destruct E as [rest ->].
    now destruct (H rest).
Qed.

Lemma join_mu_reciprocal_witness :
  join_mu "{0}{1}" "5" "m" = Format.format "{0}{1}" ["5"; "m"].
Proof.
  apply (proj1 (proj2 (join_mu_reciprocal "{0}{1}" "5" "m"))).
  intros rest. discriminate.
Defined.

(** ** Properties of the buckets of [formatter] *)

Lemma Qltb_lt (x y : Q) : Qltb x y = true <-> (x < y)%Q.
Proof.
  unfold Qltb. rewrite negb_true_iff. split.
  - intros H. apply Qnot_le_lt. intros L.
    apply Qle_bool_iff in L. congruence.
  - intros H. destruct (Qle_bool y x) eqn:E; [| reflexivity].
    apply Qle_bool_iff in E. exfalso. exact (Qlt_not_le _ _ H E).
Qed.

Lemma Qltb_ge (x y : Q) : Qltb x y = false <-> (y <= x)%Q.
Proof.
  unfold Qltb. rewrite negb_false_iff. apply Qle_bool_iff.
Qed.

Lemma Qeq_bool_false (x y : Q) : ~ (x == y)%Q -> Qeq_bool x y = false.
Proof.
  intros H. destruct (Qeq_bool x y) eqn:E; [| reflexivity].
  apply Qeq_bool_iff in E. contradiction.
Qed.

(** The loop over a list that ends with [item] is the loop over the list
    followed by one run of its body. *)
Lemma add_terms_app (as_ratio : bool) (power_fmt : string) (fun_ : FORMATTER)
  (items : list (string * Q)) (item : string * Q) (terms : list string * list string) :
  add_terms as_ratio power_fmt fun_ terms (items ++ [item])%list
  = terms' <- add_terms as_ratio power_fmt fun_ terms items ;;
    add_term as_ratio power_fmt fun_ terms' item.
Proof.
  revert terms. induction items as [|i items IH]; intros terms; simpl.
  - destruct (add_term as_ratio power_fmt fun_ terms item); reflexivity.
  - destruct (add_term as_ratio power_fmt fun_ terms i) as [terms' | e]; simpl.
    + apply IH.
    + reflexivity.
Qed.

(** C4, as the code has it.  One run of the loop body on [(key, value)]:
    an exponent equal to 1 puts the bare symbol in the positive bucket;
    any other exponent above 0 puts the symbol rendered with [power_fmt] in
    the positive bucket; an exponent equal to -1 with [as_ratio] puts the
    bare symbol in the negative bucket; every other exponent (at most 0,
    and not -1 when [as_ratio] holds) puts the symbol rendered with
    [power_fmt] in the negative bucket.  In particular an exponent strictly
    between 0 and 1 lands in the positive bucket. *)
Theorem add_term_buckets (as_ratio : bool) (power_fmt : string) (fun_ : FORMATTER)
  (pos_terms neg_terms : list string) (key : string) (value : Q) :
  let run := add_term as_ratio power_fmt fun_ (pos_terms, neg_terms) (key, value) in
  let powered := Format.format power_fmt [key; fun_ value] in
  ((value == 1)%Q -> run = Ok ((pos_terms ++ [key])%list, neg_terms))
  /\ ((0 < value)%Q -> ~ (value == 1)%Q ->
      run = t <- powered ;; Ok ((pos_terms ++ [t])%list, neg_terms))
  /\ ((value == -1)%Q -> as_ratio = true ->
      run = Ok (pos_terms, (neg_terms ++ [key])%list))
  /\ ((value <= 0)%Q -> ~ (value == -1)%Q \/ as_ratio = false ->
      run = t <- powered ;; Ok (pos_terms, (neg_terms ++ [t])%list))
  /\ ((0 < value)%Q -> (value < 1)%Q ->
      run = t <- powered ;; Ok ((pos_terms ++ [t])%list, neg_terms)).
Proof.
  intros run powered. subst run powered. unfold add_term.
  assert (P : (0 < value)%Q -> ~ (value == 1)%Q ->
    (if Qeq_bool value 1
     then Ok ((pos_terms ++ [key])%list, neg_terms)
     else if Qltb 0 value
          then t <- Format.format power_fmt [key; fun_ value] ;;
               Ok ((pos_terms ++ [t])%list, neg_terms)
          else if Qeq_bool value (-1) && as_ratio
               then Ok (pos_terms, (neg_terms ++ [key])%list)
               else t <- Format.format power_fmt [key; fun_ value] ;;
                    Ok (pos_terms, (neg_terms ++ [t])%list))
    = t <- Format.format power_fmt [key; fun_ value] ;;
      Ok ((pos_terms ++ [t])%list, neg_terms)).
  { intros H0 H1. rewrite (Qeq_bool_false _ _ H1).
    apply Qltb_lt in H0. now rewrite H0. }
  split; [| split; [| split; [| split]]].
  - intros H. apply Qeq_bool_iff in H. now rewrite H.
  - exact P.
  - intros H ->.
    assert (N1 : ~ (value == 1)%Q) by (rewrite H; discriminate).
    assert (N0 : (value <= 0)%Q) by (rewrite H; discriminate).
    rewrite (Qeq_bool_false _ _ N1).
    apply Qltb_ge in N0. rewrite N0.
    apply Qeq_bool_iff in H. now rewrite H.
  - intros H0 H.
    assert (N1 : ~ (value == 1)%Q).
    { intros E. rewrite E in H0. now apply H0. }
    rewrite (Qeq_bool_false _ _ N1).
    apply Qltb_ge in H0. rewrite H0.
    destruct H as [H | ->].
    + now rewrite (Qeq_bool_false _ _ H).
    + now rewrite andb_false_r.
  - intros H0 H1. apply P; [exact H0 |].
    intros E. rewrite E in H1. exact (Qlt_irrefl _ H1).
Qed.

(** C4 as stated fails: the exponent 1/2 lies strictly between 0 and 1
    and the term goes to the positive bucket, the negative one staying
    empty; the formatter prints it in the numerator. *)
Lemma fractional_exponent_goes_to_positive_bucket :
  (0 < 1 # 2)%Q /\ (1 # 2 < 1)%Q
  /\ add_term true default_power_fmt
       (fun x => format_n (fun _ => "0.5") (Qabs x)) ([], []) ("m", (1 # 2)%Q)
     = Ok (["m ** 0.5"], [])
  /\ formatter_with_defaults (fun _ => "0.5") [("m", (1 # 2)%Q)] true false true
     = Ok "m ** 0.5".
Proof. repeat split. Qed.

Lemma add_term_buckets_witness :
  add_term true default_power_fmt (fun _ => "3") (["m"], ["s"]) ("kg", (-1)%Q)
  = Ok (["m"], ["s"; "kg"]).
Proof.
  apply (proj1 (proj2 (proj2
    (add_term_buckets true default_power_fmt (fun _ => "3") ["m"] ["s"] "kg" (-1)%Q)))).
  - reflexivity.
  - reflexivity.
Defined.

(** C10.  An exponent equal to 0 puts the symbol rendered with
    [power_fmt], applied to the symbol and to the rendered exponent, in the
    negative bucket; the default renderer prints 0 as [0], and with
    [as_ratio] and the default formats the items [("m", 0)] give
    [1 / m ** 0]. *)
Theorem zero_exponent_in_negative_bucket (nonintegral : FORMATTER)
  (as_ratio : bool) (power_fmt : string) (fun_ : FORMATTER)
  (pos_terms neg_terms : list string) (key : string) (value : Q) :
  ((value == 0)%Q ->
   add_term as_ratio power_fmt fun_ (pos_terms, neg_terms) (key, value)
   = t <- Format.format power_fmt [key; fun_ value] ;;
     Ok (pos_terms, (neg_terms ++ [t])%list))
  /\ format_n nonintegral (Qabs 0) = "0"
  /\ add_terms true default_power_fmt (fun x => format_n nonintegral (Qabs x))
       ([], []) [("m", 0%Q)]
     = Ok ([], ["m ** 0"])
  /\ formatter_with_defaults nonintegral [("m", 0%Q)] true false true
     = Ok "1 / m ** 0".
Proof.
  split; [| repeat split].
  intros H. unfold add_term.
  assert (N1 : ~ (value == 1)%Q) by (rewrite H; discriminate).
  assert (N0 : (value <= 0)%Q) by (rewrite H; discriminate).
  assert (N2 : ~ (value == -1)%Q) by (rewrite H; discriminate).
  rewrite (Qeq_bool_false _ _ N1), (Qeq_bool_false _ _ N2).
  apply Qltb_ge in N0. now rewrite N0.
Qed.

Lemma zero_exponent_in_negative_bucket_witness :
  add_term false default_power_fmt (fun _ => "0") ([], []) ("m", (0 # 5)%Q)
  = Ok ([], ["m ** 0"]).
Proof.
  apply (proj1 (zero_exponent_in_negative_bucket (fun _ => "")
                  false default_power_fmt (fun _ => "0") [] [] "m" (0 # 5)%Q)).
  reflexivity.
Defined.

(** ** Properties of [_join] and of the ratio form *)

(** A format without replacement marker is a plain separator. *)
Lemma _join_separator (fmt : string) (iterable : list string) :
  Re.search_marker false fmt = false ->
  _join fmt iterable = Ok (String.concat fmt iterable).
Proof.
  intros H. unfold _join. destruct iterable as [|first miter].
  - reflexivity.
  - now rewrite H.
Qed.

Lemma format_parentheses (s : string) :
  Format.format default_parentheses_fmt [s] = Ok ("(" ++ s ++ ")").
Proof.
  unfold Format.format, default_parentheses_fmt. cbn.
  induction s as [|c s IH]; [reflexivity |].
  cbn. now inversion IH.
Qed.

(** C8, as the code has it.  With [as_ratio], [single_denominator] and
    the default product, division and parentheses formats, a non-empty
    negative bucket is joined with [" * "] and put in parentheses exactly
    when it has more than one term, after the positive part (or [1]) and
    [" / "].  The items [("m", 1)], [("s", -1)], [("kg", -1)] give
    [m / (s * kg)] when [sort] is false, the order given being kept; with
    [sort] left at its default, true, they are sorted first and give
    [m / (kg * s)]. *)
Theorem single_denominator_parentheses :
  (forall (items : list (string * Q)) (power_fmt : string) (exp_call : FORMATTER)
          (sort : bool) (pos_terms neg_terms : list string),
      add_terms true power_fmt (fun x => exp_call (Qabs x)) ([], [])
        (if sort then sorted tuple_ltb items else items)
      = Ok (pos_terms, neg_terms) ->
      neg_terms <> [] ->
      formatter items true true default_product_fmt default_division_fmt
        power_fmt default_parentheses_fmt exp_call sort
      = Ok (Str.or_else (String.concat " * " pos_terms) "1" ++ " / "
            ++ (if (1 <? List.length neg_terms)%nat
                then "(" ++ String.concat " * " neg_terms ++ ")"
                else String.concat " * " neg_terms)))
  /\ (forall nonintegral : FORMATTER,
        formatter_with_defaults nonintegral
          [("m", 1%Q); ("s", (-1)%Q); ("kg", (-1)%Q)] true true false
        = Ok "m / (s * kg)")
  /\ (forall nonintegral : FORMATTER,
        formatter_with_defaults nonintegral
          [("m", 1%Q); ("s", (-1)%Q); ("kg", (-1)%Q)] true true true
        = Ok "m / (kg * s)").
Proof.
  split; [| split; intros; reflexivity].
  intros items power_fmt exp_call sort pos_terms neg_terms Hterms Hneg.
  unfold formatter.
  destruct (if sort then sorted tuple_ltb items else items) as [|item items'].
  - simpl in Hterms. injection Hterms as _ E. now subst neg_terms.
  - rewrite Hterms. cbn [bind negb].
    rewrite (_join_separator default_product_fmt pos_terms) by reflexivity.
    cbn [bind].
    destruct neg_terms as [|t neg_terms]; [contradiction |].
    rewrite (_join_separator default_product_fmt (t :: neg_terms)) by reflexivity.
    cbn [bind].
    destruct (1 <? List.length (t :: neg_terms))%nat.
    + rewrite format_parentheses. cbn [bind].
      rewrite (_join_separator default_division_fmt) by reflexivity.
      reflexivity.
    + cbn [bind].
      rewrite (_join_separator default_division_fmt) by reflexivity.
      reflexivity.
Qed.

(** C8 as stated fails when the remaining arguments keep their defaults:
    [sort] is then true and [kg] comes before [s]. *)
Lemma single_denominator_default_sort_reorders :
  formatter_with_defaults (fun _ => "")
    [("m", 1%Q); ("s", (-1)%Q); ("kg", (-1)%Q)] true true true
  = Ok "m / (kg * s)"
  /\ formatter_with_defaults (fun _ => "")
       [("m", 1%Q); ("s", (-1)%Q); ("kg", (-1)%Q)] true true true
     <> Ok "m / (s * kg)".
Proof. split; [reflexivity | vm_compute; discriminate]. Qed.

Lemma single_denominator_parentheses_witness :
  formatter [("m", 1%Q); ("s", (-2)%Q)] true true default_product_fmt
    default_division_fmt default_power_fmt default_parentheses_fmt
    (fun _ => "2") false
  = Ok "m / s ** 2".
Proof.
  apply (proj1 single_denominator_parentheses
           [("m", 1%Q); ("s", (-2)%Q)] default_power_fmt (fun _ => "2") false
           ["m"] ["s ** 2"]).
  - reflexivity.
  - discriminate.
Defined.

(** ** Properties of [sorted] *)

Section SortedFacts.

Context {A : Type}.
Variable lt : A -> A -> bool.

Lemma insert_Permutation (x : A) (l : list A) :
  Permutation (insert lt x l) (x :: l).
Proof.
  induction l as [|y l IH]; simpl.
  - apply Permutation_refl.
  - destruct (lt y x).
    + apply perm_trans with (y :: x :: l).
      * now apply perm_skip.
      * apply perm_swap.
    + apply Permutation_refl.
Qed.

Lemma sorted_Permutation (l : list A) : Permutation (sorted lt l) l.
Proof.
  induction l as [|x l IH]; simpl.
  - apply perm_nil.
  - apply perm_trans with (x :: sorted lt l).
    + apply insert_Permutation.
    + now apply perm_skip.
Qed.

Lemma sorted_In (x : A) (l : list A) : In x (sorted lt l) <-> In x l.
Proof.
  split; apply Permutation_in.
  - apply sorted_Permutation.
  - apply Permutation_sym, sorted_Permutation.
Qed.

Lemma insert_at_head (x : A) (l : list A) :
  HdRel (not_after lt) x l -> insert lt x l = x :: l.
Proof.
  intros H. destruct l as [|y l]; [reflexivity |].
  inversion H as [| ? ? Hxy]; subst. simpl.
  unfold not_after in Hxy. now rewrite Hxy.
Qed.

Lemma sorted_fixpoint (l : list A) :
  Sorted (not_after lt) l -> sorted lt l = l.
Proof.
  induction 1 as [| x l Hl IH Hx]; simpl.
  - reflexivity.
  - rewrite IH. now apply insert_at_head.
Qed.

Hypothesis lt_asym : forall x y, lt x y = true -> lt y x = false.

Lemma insert_Sorted (x : A) (l : list A) :
  Sorted (not_after lt) l -> Sorted (not_after lt) (insert lt x l).
Proof.
  induction 1 as [| y l Hl IH Hy]; simpl.
  - repeat constructor.
  - destruct (lt y x) eqn:E.
    + constructor; [exact IH |].
      destruct l as [|z l]; simpl.
      * constructor. unfold not_after. now apply lt_asym.
      * destruct (lt z x).
        -- inversion Hy; subst. now constructor.
        -- constructor. unfold not_after. now apply lt_asym.
    + constructor.
      * now constructor.
      * now constructor.
Qed.

Lemma sorted_Sorted (l : list A) : Sorted (not_after lt) (sorted lt l).
Proof.
  induction l as [|x l IH]; simpl.
  - constructor.
  - now apply insert_Sorted.
Qed.

Lemma sorted_idempotent (l : list A) :
  sorted lt (sorted lt l) = sorted lt l.
Proof. apply sorted_fixpoint, sorted_Sorted. Qed.

End SortedFacts.

Lemma string_ltb_asym (s t : string) :
  String.ltb s t = true -> String.ltb t s = false.
Proof.
  unfold String.ltb. rewrite (String.compare_antisym t s).
  destruct (String.compare s t); simpl; congruence.
Qed.

Lemma tuple_ltb_asym (a b : string * Q) :
  tuple_ltb a b = true -> tuple_ltb b a = false.
Proof.
  unfold tuple_ltb. rewrite (String.eqb_sym (fst b) (fst a)).
  destruct (String.eqb (fst a) (fst b)).
  - destruct (Qeq_bool (snd a) (snd b)) eqn:E; [discriminate |].
    intros H. apply Qltb_lt in H.
    destruct (Qeq_bool (snd b) (snd a)); [reflexivity |].
    apply Qltb_ge. now apply Qlt_le_weak.
  - apply string_ltb_asym.
Qed.

(** C9.  With [sort] true the formatter gives on any items what it
    gives on the items sorted beforehand by the order of the tuples,
    whether [sort] is then true or false; the sorted items are a
    permutation of the given ones in which no tuple stands before a
    strictly smaller one.  The items [("s", -1)], [("m", 1)] give with
    [sort] true what [("m", 1)], [("s", -1)] give, namely [m / s] under the
    default configuration. *)
Theorem formatter_sort_presorted (items : list (string * Q))
  (as_ratio single_denominator : bool)
  (product_fmt division_fmt power_fmt parentheses_fmt : string)
  (exp_call nonintegral : FORMATTER) :
  let presorted := sorted tuple_ltb items in
  let run := fun its sort =>
    formatter its as_ratio single_denominator product_fmt division_fmt
      power_fmt parentheses_fmt exp_call sort in
  run items true = run presorted true
  /\ run items true = run presorted false
  /\ Permutation presorted items
  /\ Sorted (not_after tuple_ltb) presorted
  /\ formatter_with_defaults nonintegral [("s", (-1)%Q); ("m", 1%Q)] true false true
     = formatter_with_defaults nonintegral [("m", 1%Q); ("s", (-1)%Q)] true false true
  /\ formatter_with_defaults nonintegral [("m", 1%Q); ("s", (-1)%Q)] true false true
     = Ok "m / s"
  /\ formatter_with_defaults nonintegral [("m", 1%Q); ("s", (-1)%Q)] true false false
     = Ok "m / s".
Proof.
  intros presorted run. subst presorted run. cbn beta.
  split; [| split; [| split; [| split; [| repeat split]]]].
  - unfold formatter.
    now rewrite (sorted_idempotent tuple_ltb tuple_ltb_asym).
  - reflexivity.
  - apply sorted_Permutation.
  - apply (sorted_Sorted tuple_ltb tuple_ltb_asym).
Qed.

(** ** Properties of [_parse_spec] *)

Lemma reversed_rev (s : string) : Str.reversed s = rev (chars s).
Proof.
  induction s as [|c s IH]; simpl; [reflexivity | now rewrite IH].
Qed.

Lemma chars_app (s t : string) : chars (s ++ t) = (chars s ++ chars t)%list.
Proof.
  induction s as [|c s IH]; simpl; [reflexivity | now rewrite IH].
Qed.

Lemma unchars_app (l m : list ascii) :
  string_of_list_ascii (l ++ m) = string_of_list_ascii l ++ string_of_list_ascii m.
Proof.
  induction l as [|c l IH]; simpl; [reflexivity | now rewrite IH].
Qed.

Lemma reversed_split (pre tail : string) (c : ascii) :
  Str.reversed (pre ++ String c tail)
  = (rev (chars tail) ++ c :: rev (chars pre))%list.
Proof.
  rewrite reversed_rev, chars_app. simpl.
  rewrite rev_app_distr. simpl. now rewrite <- app_assoc.
Qed.

Lemma reversed_split_inv (spec : string) (l rest : list ascii) (c : ascii) :
  Str.reversed spec = (l ++ c :: rest)%list ->
  exists pre tail, spec = pre ++ String c tail /\ chars tail = rev l.
Proof.
  intros H. rewrite reversed_rev in H.
  apply (f_equal (@rev ascii)) in H. rewrite rev_involutive in H.
  rewrite rev_app_distr in H. simpl in H. rewrite <- app_assoc in H. simpl in H.
  exists (string_of_list_ascii (rev rest)), (string_of_list_ascii (rev l)).
  split.
  - rewrite <- (string_of_list_ascii_of_string spec). unfold chars in H. rewrite H.
    now rewrite unchars_app.
  - apply list_ascii_of_string_of_list_ascii.
Qed.

Lemma passable_rev (formatters : list string) (l : list ascii) :
  passable formatters (rev l) = passable formatters l.
Proof.
  unfold passable.
  destruct (forallb _ l) eqn:E.
  - apply forallb_forall. intros x Hx. apply in_rev in Hx.
    rewrite forallb_forall in E. now apply E.
  - destruct (forallb _ (rev l)) eqn:E'; [| reflexivity].
    rewrite <- E. symmetry. apply forallb_forall. intros x Hx.
    rewrite forallb_forall in E'. apply E'. now apply in_rev in Hx.
Qed.

Lemma flags_met_rev (formatters : list string) (result : string) (l : list ascii) :
  flags_met formatters result (rev l) = flags_met formatters result l.
Proof.
  unfold flags_met. now rewrite filter_rev, length_rev.
Qed.

Lemma is_flag_not_skipped (formatters : list string) (ch : ascii) :
  is_flag formatters ch = true ->
  skipped ch = false
  /\ Str.mem_list (Str.of_char ch) (formatters ++ ["~"])%list = true.
Proof.
  unfold is_flag. intros H. apply andb_true_iff in H. destruct H as [H1 H2].
  apply negb_true_iff in H1. auto.
Qed.

(** One step of the loop, by the kind of the character. *)
Lemma loop_step (formatters : list string) (result : string)
  (ch : ascii) (l : list ascii) :
  _parse_spec_loop formatters result (ch :: l)
  = if skipped ch then _parse_spec_loop formatters result l
    else if Str.mem_list (Str.of_char ch) (formatters ++ ["~"])%list then
      if negb (Str.is_empty result) then Raise expected_colon
      else _parse_spec_loop formatters (Str.of_char ch) l
    else if Str.isalpha ch then Raise (unknown_conversion_error ch)
    else Ok result.
Proof. reflexivity. Qed.

Lemma loop_skipped (formatters : list string) (result : string)
  (ch : ascii) (l : list ascii) :
  skipped ch = true ->
  _parse_spec_loop formatters result (ch :: l)
  = _parse_spec_loop formatters result l.
Proof. intros H. rewrite loop_step. now rewrite H. Qed.

Lemma loop_flag (formatters : list string) (result : string)
  (ch : ascii) (l : list ascii) :
  is_flag formatters ch = true ->
  _parse_spec_loop formatters result (ch :: l)
  = if Str.is_empty result
    then _parse_spec_loop formatters (Str.of_char ch) l
    else Raise expected_colon.
Proof.
  intros H. apply is_flag_not_skipped in H. destruct H as [H1 H2].
  rewrite loop_step, H1, H2.
  now destruct (Str.is_empty result).
Qed.

Lemma loop_unknown (formatters : list string) (result : string)
  (ch : ascii) (l : list ascii) :
  unknown_conversion formatters ch = true ->
  _parse_spec_loop formatters result (ch :: l)
  = Raise (unknown_conversion_error ch).
Proof.
  unfold unknown_conversion, is_flag. intros H.
  apply andb_true_iff in H. destruct H as [H H3].
  apply andb_true_iff in H. destruct H as [H1 H2].
  apply negb_true_iff in H1. rewrite H1 in H2. simpl in H2.
  apply negb_true_iff in H2.
  rewrite loop_step. now rewrite H1, H2, H3.
Qed.

Lemma loop_boundary (formatters : list string) (result : string)
  (ch : ascii) (l : list ascii) :
  boundary formatters ch = true ->
  _parse_spec_loop formatters result (ch :: l) = Ok result.
Proof.
  unfold boundary, is_flag. intros H.
  apply andb_true_iff in H. destruct H as [H H3].
  apply andb_true_iff in H. destruct H as [H1 H2].
  apply negb_true_iff in H1. rewrite H1 in H2. simpl in H2.
  apply negb_true_iff in H2. apply negb_true_iff in H3.
  rewrite loop_step. now rewrite H1, H2, H3.
Qed.

(** Every character is of exactly one of the four kinds. *)
Lemma char_kind (formatters : list string) (ch : ascii) :
  (skipped ch = true /\ is_flag formatters ch = false)
  \/ (skipped ch = false /\ is_flag formatters ch = true)
  \/ (skipped ch = false /\ is_flag formatters ch = false
      /\ unknown_conversion formatters ch = true)
  \/ (skipped ch = false /\ is_flag formatters ch = false
      /\ boundary formatters ch = true).
Proof.
  unfold unknown_conversion, boundary, is_flag.
  destruct (skipped ch); simpl; [now left | right].
  destruct (Str.mem_list _ _); simpl; [now left | right].
  destruct (Str.isalpha ch); simpl; [left | right]; auto.
Qed.

Lemma passable_cons (formatters : list string) (ch : ascii) (l : list ascii) :
  passable formatters (ch :: l) = true ->
  (skipped ch = true \/ is_flag formatters ch = true)
  /\ passable formatters l = true.
Proof.
  unfold passable. simpl. intros H. apply andb_true_iff in H.
  destruct H as [H1 H2]. apply orb_true_iff in H1. auto.
Qed.

Lemma flags_met_skipped (formatters : list string) (result : string)
  (ch : ascii) (l : list ascii) :
  is_flag formatters ch = false ->
  flags_met formatters result (ch :: l) = flags_met formatters result l.
Proof. unfold flags_met. simpl. now intros ->. Qed.

Lemma flags_met_flag (formatters : list string) (result : string)
  (ch : ascii) (l : list ascii) :
  is_flag formatters ch = true ->
  flags_met formatters result (ch :: l)
  = S (flags_met formatters result l).
Proof. unfold flags_met. simpl. intros ->. simpl. lia. Qed.

Lemma flags_met_held (formatters : list string) (ch : ascii) (l : list ascii) :
  flags_met formatters (Str.of_char ch) l = S (flags_met formatters "" l).
Proof. reflexivity. Qed.

Lemma skipped_not_flag (formatters : list string) (ch : ascii) :
  skipped ch = true -> is_flag formatters ch = false.
Proof. unfold is_flag. now intros ->. Qed.

(** A flag met when one is already held, or was met on the way, raises
    the error about the missing colon. *)
Lemma loop_second_flag (formatters : list string) (l : list ascii) :
  forall (result : string) (c : ascii) (rest : list ascii),
    passable formatters l = true ->
    1 <= flags_met formatters result l ->
    is_flag formatters c = true ->
    _parse_spec_loop formatters result (l ++ c :: rest) = Raise expected_colon.
Proof.
  induction l as [|ch l IH]; intros result c rest Hp Hn Hc.
  - cbn [List.app]. rewrite loop_flag by exact Hc.
    unfold flags_met in Hn. simpl in Hn.
    destruct (Str.is_empty result); [lia | reflexivity].
  - apply passable_cons in Hp. destruct Hp as [[Hs | Hf] Hp].
    + cbn [List.app]. rewrite loop_skipped by exact Hs.
      rewrite flags_met_skipped in Hn by now apply skipped_not_flag.
      now apply IH.
    + cbn [List.app]. rewrite loop_flag by exact Hf.
      destruct (Str.is_empty result); [| reflexivity].
      apply IH; [exact Hp | | exact Hc].
      rewrite flags_met_held. lia.
Qed.

Lemma append_empty_r (s : string) : s ++ "" = s.
Proof. induction s as [|c s IH]; simpl; [reflexivity | now rewrite IH]. Qed.

(** With at most one flag on the way, the loop reaches the end of the
    spec or a boundary character and returns the flag. *)
Lemma loop_ok (formatters : list string) (l : list ascii) :
  forall (result : string) (rest : list ascii),
    passable formatters l = true ->
    flags_met formatters result l <= 1 ->
    rest = [] \/ (exists b rest', rest = b :: rest' /\ boundary formatters b = true) ->
    _parse_spec_loop formatters result (l ++ rest)
    = Ok (result ++ string_of_list_ascii (filter (is_flag formatters) l)).
Proof.
  induction l as [|ch l IH]; intros result rest Hp Hn Hrest.
  - cbn [List.app filter string_of_list_ascii]. rewrite append_empty_r.
    destruct Hrest as [-> | (b & rest' & -> & Hb)]; [reflexivity |].
    now apply loop_boundary.
  - apply passable_cons in Hp. destruct Hp as [[Hs | Hf] Hp].
    + pose proof (skipped_not_flag formatters ch Hs) as Hnf.
      cbn [List.app filter]. rewrite loop_skipped by exact Hs.
      rewrite flags_met_skipped in Hn by exact Hnf.
      rewrite Hnf. now apply IH.
    + cbn [List.app filter]. rewrite loop_flag by exact Hf.
      rewrite flags_met_flag in Hn by exact Hf.
      rewrite Hf.
      assert (Hz : flags_met formatters result l = 0) by lia.
      unfold flags_met in Hz.
      destruct result as [|r0 result]; simpl in Hz; [| lia].
      cbn [Str.is_empty]. rewrite IH; [reflexivity | exact Hp | | exact Hrest].
      rewrite flags_met_held. unfold flags_met. simpl. lia.
Qed.

Lemma unknown_conversion_error_inj (c d : ascii) :
  unknown_conversion_error c = unknown_conversion_error d -> c = d.
Proof.
  unfold unknown_conversion_error. intros H. cbn in H. now inversion H.
Qed.

Lemma unknown_kind (formatters : list string) (ch : ascii) :
  unknown_conversion formatters ch = true ->
  skipped ch = false /\ is_flag formatters ch = false.
Proof.
  unfold unknown_conversion. intros H.
  apply andb_true_iff in H. destruct H as [H _].
  apply andb_true_iff in H. destruct H as [H1 H2].
  apply negb_true_iff in H1. apply negb_true_iff in H2. auto.
Qed.

(** The loop raises the malformed-specifier error for [c] exactly when it
    reaches an occurrence of [c], unknown, after characters that are
    passed over or flags, at most one flag being met or held. *)
Lemma loop_unknown_iff (formatters : list string) (c : ascii) (l0 : list ascii) :
  forall result : string,
    _parse_spec_loop formatters result l0 = Raise (unknown_conversion_error c)
    <-> exists l rest,
          l0 = (l ++ c :: rest)%list
          /\ unknown_conversion formatters c = true
          /\ passable formatters l = true
          /\ flags_met formatters result l <= 1.
Proof.
  induction l0 as [|ch l0 IH]; intros result.
  - split; [discriminate |].
    intros (l & rest & H & _). now destruct l.
  - destruct (char_kind formatters ch) as [[Hs Hf] | [[Hs Hf] | [(Hs & Hf & Hu) | (Hs & Hf & Hb)]]].
    + rewrite loop_skipped by exact Hs. rewrite IH. split.
      * intros (l & rest & -> & Hc & Hp & Hn).
        exists (ch :: l), rest. repeat split; auto.
        -- unfold passable. simpl. rewrite Hs. exact Hp.
        -- now rewrite flags_met_skipped.
      * intros (l & rest & E & Hc & Hp & Hn).
        destruct l as [|ch' l]; simpl in E; injection E as -> ->.
        -- apply unknown_kind in Hc. destruct Hc; congruence.
        -- apply passable_cons in Hp. destruct Hp as [_ Hp].
           rewrite flags_met_skipped in Hn by exact Hf.
           now exists l, rest.
    + rewrite loop_flag by exact Hf. split.
      * destruct (Str.is_empty result) eqn:Er; [| discriminate].
        intros H. apply IH in H. destruct H as (l & rest & -> & Hc & Hp & Hn).
        exists (ch :: l), rest. repeat split; auto.
        -- unfold passable. simpl. rewrite Hf, orb_true_r. exact Hp.
        -- rewrite flags_met_flag by exact Hf.
           rewrite flags_met_held in Hn. unfold flags_met in *. rewrite Er.
           cbn [Str.is_empty] in Hn. lia.
      * intros (l & rest & E & Hc & Hp & Hn).
        destruct l as [|ch' l]; simpl in E; injection E as -> ->.
        -- apply unknown_kind in Hc. destruct Hc; congruence.
        -- apply passable_cons in Hp. destruct Hp as [_ Hp].
           rewrite flags_met_flag in Hn by exact Hf.
           assert (Er : Str.is_empty result = true).
           { unfold flags_met in Hn. destruct (Str.is_empty result); [reflexivity | lia]. }
           rewrite Er. apply IH. exists l, rest. repeat split; auto.
           rewrite flags_met_held. unfold flags_met in *. rewrite Er in Hn.
           cbn [Str.is_empty]. lia.
    + rewrite loop_unknown by exact Hu. split.
      * intros H. injection H as H.
        assert (E : ch = c).
        { apply unknown_conversion_error_inj. unfold unknown_conversion_error.
          now rewrite H. }
        subst ch. exists [], l0. repeat split; auto.
        unfold flags_met. simpl. destruct (Str.is_empty result); lia.
      * intros (l & rest & E & Hc & Hp & Hn).
        destruct l as [|ch' l]; simpl in E; injection E as -> ->; [reflexivity |].
        apply passable_cons in Hp. destruct Hp as [[H | H] _]; congruence.
    + rewrite loop_boundary by exact Hb. split; [discriminate |].
      intros (l & rest & E & Hc & Hp & Hn).
      destruct l as [|ch' l]; simpl in E; injection E as -> ->.
      * unfold unknown_conversion in Hc. unfold boundary in Hb.
        destruct (Str.isalpha c);
          [rewrite andb_false_r in Hb | rewrite andb_false_r in Hc];
          discriminate.
      * apply passable_cons in Hp. destruct Hp as [[H | H] _]; congruence.
Qed.

Lemma scannable_passable (formatters : list string) (tail : string) :
  scannable formatters tail = passable formatters (rev (rev (chars tail))).
Proof. now rewrite rev_involutive. Qed.

Lemma flag_count_flags_met (formatters : list string) (tail : string) :
  flag_count formatters tail = flags_met formatters "" (rev (chars tail)).
Proof. now rewrite flags_met_rev. Qed.

(** C6, as the code has it.  When [_parse_spec], scanning from the end
    over characters that are passed over or flags, has met a flag and meets
    another one before any boundary character, it raises a [ValueError]
    whose message is [expected ':' after format specifier]; nothing in
    [_parse_spec] catches it. *)
Theorem parse_spec_second_flag (formatters : list string)
  (pre tail : string) (c : ascii) :
  scannable formatters tail = true ->
  1 <= flag_count formatters tail ->
  is_flag formatters c = true ->
  _parse_spec formatters (pre ++ String c tail)
  = Raise (ValueError "expected ':' after format specifier").
Proof.
  intros Hs Hn Hc. unfold _parse_spec. rewrite reversed_split.
  apply loop_second_flag.
  - rewrite passable_rev. exact Hs.
  - rewrite <- flag_count_flags_met. exact Hn.
  - exact Hc.
Qed.

(** C6 as stated fails on the text of the message: with the flags [P]
    and [L] registered, the spec [PL] raises the error with the message of
    the code, which is not the one of the claim. *)
Lemma parse_spec_second_flag_message :
  _parse_spec ["P"; "L"] "PL"
  = Raise (ValueError "expected ':' after format specifier")
  /\ _parse_spec ["P"; "L"] "PL"
     <> Raise (ValueError "expected separator after format specifier.").
Proof. split; [reflexivity | vm_compute; discriminate]. Qed.

Lemma parse_spec_second_flag_witness :
  _parse_spec ["P"; "L"] ".3fP~Lg"
  = Raise (ValueError "expected ':' after format specifier").
Proof.
  apply (parse_spec_second_flag ["P"; "L"] ".3f" "~Lg" "P").
  - reflexivity.
  - vm_compute. lia.
  - reflexivity.
Defined.

(** C7.  [_parse_spec] raises the error [Unknown conversion specified]
    followed by the character [c] exactly when the spec has an occurrence
    of [c], alphabetic and neither basic type, nor [~], nor registered
    flag, after which every character is passed over or is a flag, with at
    most one flag.  And when the characters after the last boundary
    character, or all of them when there is none, are passed over or flags,
    with at most one flag, [_parse_spec] returns: the flag, or the empty
    string. *)
Theorem parse_spec_unknown_conversion (formatters : list string)
  (spec : string) (c : ascii) :
  (_parse_spec formatters spec
   = Raise (ValueError ("Unknown conversion specified " ++ Str.of_char c))
   <-> exists pre tail,
         spec = pre ++ String c tail
         /\ unknown_conversion formatters c = true
         /\ scannable formatters tail = true
         /\ flag_count formatters tail <= 1)
  /\ (forall pre tail,
        spec = pre ++ tail ->
        scannable formatters tail = true ->
        flag_count formatters tail <= 1 ->
        pre = ""
        \/ (exists pre' b, pre = pre' ++ Str.of_char b
                           /\ boundary formatters b = true) ->
        _parse_spec formatters spec
        = Ok (string_of_list_ascii (filter (is_flag formatters) (chars tail)))).
Proof.
  split.
  - unfold _parse_spec.
    change (ValueError ("Unknown conversion specified " ++ Str.of_char c))
      with (unknown_conversion_error c).
    rewrite loop_unknown_iff. split.
    + intros (l & rest & E & Hc & Hp & Hn).
      apply reversed_split_inv in E. destruct E as (pre & tail & -> & Et).
      exists pre, tail. repeat split; auto.
      * unfold scannable. fold (passable formatters (chars tail)).
        rewrite Et, passable_rev. exact Hp.
      * rewrite flag_count_flags_met, Et, rev_involutive. exact Hn.
    + intros (pre & tail & -> & Hc & Hs & Hn).
      exists (rev (chars tail)), (rev (chars pre)). repeat split; auto.
      * apply reversed_split.
      * rewrite passable_rev. exact Hs.
      * rewrite <- flag_count_flags_met. exact Hn.
  - intros pre tail -> Hs Hn Hpre. unfold _parse_spec.
    rewrite reversed_rev, chars_app, rev_app_distr.
    rewrite loop_ok.
    + cbn [String.append]. rewrite filter_rev.
      unfold flag_count in Hn.
      destruct (filter (is_flag formatters) (chars tail)) as [|f [|g fs]];
        simpl in Hn; [reflexivity | reflexivity | lia].
    + rewrite passable_rev. exact Hs.
    + rewrite <- flag_count_flags_met. exact Hn.
    + destruct Hpre as [-> | (pre' & b & -> & Hb)]; [now left | right].
      exists b, (rev (chars pre')). split; [| exact Hb].
      rewrite chars_app, rev_app_distr. reflexivity.
Qed.

Lemma parse_spec_unknown_conversion_witness :
  _parse_spec ["P"; "L"] "08.3fP" = Ok "P".
Proof.
  apply (proj2 (parse_spec_unknown_conversion ["P"; "L"] "08.3fP" "q") "08.3" "fP").
  - reflexivity.
  - reflexivity.
  - vm_compute. lia.
  - right. exists "08.", "3"%char. split; reflexivity.
Defined.

(** ** Properties of the flag operations *)

Lemma mem_app (c : ascii) (s t : string) :
  Str.mem c (s ++ t) = Str.mem c s || Str.mem c t.
Proof.
  induction s as [|a s IH]; simpl; [reflexivity |].
  now rewrite IH, orb_assoc.
Qed.

Lemma prefix_mem (m s : string) (c : ascii) :
  String.prefix m s = true -> Str.mem c m = true -> Str.mem c s = true.
Proof.
  intros H Hc. apply prefix_app in H. destruct H as [rest ->].
  rewrite mem_app, Hc. reflexivity.
Qed.

Lemma prefix_char (c a : ascii) (s : string) :
  String.prefix (Str.of_char c) (String a s) = Ascii.eqb c a.
Proof.
  unfold Str.of_char. cbn [String.prefix].
  destruct (ascii_dec c a) as [-> | N].
  - rewrite Ascii.eqb_refl. now destruct s.
  - symmetry. now apply Ascii.eqb_neq.
Qed.

(** [replace] only drops characters. *)
Lemma remove_from_mem (old : string) (c : ascii) (s : string) :
  forall skip, Str.mem c (Str.remove_from old skip s) = true -> Str.mem c s = true.
Proof.
  induction s as [|a s IH]; intros skip; cbn [Str.remove_from Str.mem].
  - trivial.
  - destruct skip as [|k].
    + destruct (Str.is_empty old).
      * cbn [Str.mem]. intros H. apply orb_true_iff in H.
        destruct H as [-> | H]; [reflexivity |].
        rewrite (IH _ H). apply orb_true_r.
      * destruct (String.prefix old (String a s)).
        -- intros H. rewrite (IH _ H). apply orb_true_r.
        -- cbn [Str.mem]. intros H. apply orb_true_iff in H.
           destruct H as [-> | H]; [reflexivity |].
           rewrite (IH _ H). apply orb_true_r.
    + intros H. rewrite (IH _ H). apply orb_true_r.
Qed.

(** Dropping a one-character flag leaves no occurrence of it. *)
Lemma remove_char_mem (c : ascii) (s : string) :
  Str.mem c (Str.remove (Str.of_char c) s) = false.
Proof.
  unfold Str.remove.
  induction s as [|a s IH]; cbn [Str.remove_from]; [reflexivity |].
  change (Str.is_empty (Str.of_char c)) with false. cbv iota.
  rewrite prefix_char. destruct (Ascii.eqb c a) eqn:E.
  - exact IH.
  - cbn [Str.mem]. now rewrite E, IH.
Qed.

Lemma remove_steps_mem (flags : list string) (c : ascii) :
  forall s, Str.mem c (fold_left remove_step flags s) = true -> Str.mem c s = true.
Proof.
  induction flags as [|flag flags IH]; intros s; simpl; [trivial |].
  intros H. apply IH in H. unfold remove_step in H.
  destruct (negb (Str.is_empty flag)); [| exact H].
  now apply remove_from_mem in H.
Qed.

Lemma remove_steps_absent (flags : list string) (c : ascii) :
  forall s, In (Str.of_char c) flags ->
            Str.mem c (fold_left remove_step flags s) = false.
Proof.
  induction flags as [|flag flags IH]; intros s Hin; simpl; [contradiction |].
  destruct Hin as [-> | Hin]; [| now apply IH].
  destruct (Str.mem c (fold_left remove_step flags _)) eqn:E; [| reflexivity].
  apply remove_steps_mem in E. unfold remove_step in E. simpl in E.
  now rewrite remove_char_mem in E.
Qed.

(** No one-character flag, and no [~], is left by [remove_custom_flags]. *)
Lemma remove_custom_flags_absent (formatters : list string) (s : string) (c : ascii) :
  In (Str.of_char c) formatters \/ c = "~"%char ->
  Str.mem c (remove_custom_flags formatters s) = false.
Proof.
  intros H. unfold remove_custom_flags.
  change (fun spec flag : string =>
            if negb (Str.is_empty flag) then Str.remove flag spec else spec)
    with remove_step.
  apply remove_steps_absent. apply in_or_app.
  destruct H as [H | ->]; [left | right; now left].
  now apply sorted_In.
Qed.

Lemma first_match_In (alts : list string) (s m : string) :
  Re.first_match alts s = Some m -> In m alts /\ String.prefix m s = true.
Proof.
  induction alts as [|a alts IH]; simpl; [discriminate |].
  destruct (String.prefix a s) eqn:E.
  - intros H. injection H as <-. auto.
  - intros H. destruct (IH H). auto.
Qed.

Lemma unmatched_first_match (alts : list string) (s m : string) :
  unmatched alts s -> Re.first_match alts s = Some m -> m = "".
Proof.
  intros U H. apply first_match_In in H. destruct H as [Hin Hp].
  destruct m as [|a m]; [reflexivity |].
  destruct (U _ Hin) as (c & Hc & Hs); [discriminate |].
  rewrite (prefix_mem _ _ _ Hp Hc) in Hs. discriminate.
Qed.

Lemma unmatched_nonempty (alts : list string) (s : string) :
  unmatched alts s -> Re.first_match (Re.nonempty alts) s = None.
Proof.
  intros U. destruct (Re.first_match (Re.nonempty alts) s) as [m |] eqn:E;
    [| reflexivity].
  apply first_match_In in E. destruct E as [Hin Hp].
  unfold Re.nonempty in Hin. apply filter_In in Hin. destruct Hin as [Hin Hne].
  destruct m as [|a m]; [discriminate Hne |].
  destruct (U _ Hin) as (c & Hc & Hs); [discriminate |].
  rewrite (prefix_mem _ _ _ Hp Hc) in Hs. discriminate.
Qed.

Lemma unmatched_tail (alts : list string) (c : ascii) (s : string) :
  unmatched alts (String c s) -> unmatched alts s.
Proof.
  intros U a Hin Hne. destruct (U a Hin Hne) as (d & Hd & Hs).
  exists d. split; [exact Hd |].
  simpl in Hs. apply orb_false_iff in Hs. tauto.
Qed.

Lemma findall_from_unmatched (alts : list string) (s : string) :
  forall skip, unmatched alts s ->
               Forall (eq "") (Re.findall_from alts skip s).
Proof.
  induction s as [|c s IH]; intros skip U; cbn [Re.findall_from].
  - destruct (Re.first_match alts "") as [m |] eqn:E; [| constructor].
    apply (unmatched_first_match _ _ _ U) in E. subst m. repeat constructor.
  - pose proof (unmatched_tail _ _ _ U) as U'.
    destruct skip as [|k]; [| now apply IH].
    destruct (Re.first_match alts (String c s)) as [m |] eqn:E; [| now apply IH].
    apply (unmatched_first_match _ _ _ U) in E. subst m. cbn [Str.is_empty].
    rewrite (unmatched_nonempty _ _ U). constructor; [reflexivity | now apply IH].
Qed.

Lemma concat_all_empty (l : list string) :
  Forall (eq "") l -> String.concat "" l = "".
Proof.
  induction 1 as [| x l Hx Hl IH]; [reflexivity |].
  subst x. simpl. destruct l; [reflexivity | exact IH].
Qed.

(** A registry of flags of at most one character is covered. *)
Lemma short_flags_covered (formatters : list string) :
  (forall flag, In flag formatters -> String.length flag <= 1) ->
  covered formatters.
Proof.
  intros H flag Hin Hne. specialize (H flag Hin).
  destruct flag as [|c [|d flag]]; [contradiction | | simpl in H; lia].
  exists c. split; [simpl; now rewrite Ascii.eqb_refl | now left].
Qed.

(** C3, as the code has it.  When the flags of the registry are made of
    characters without special meaning in a regular expression, and every
    non-empty one contains a character that is a flag by itself or the
    marker [~], as when no flag has more than one character, nothing is
    extracted from what [remove_custom_flags] returns. *)
Theorem extract_after_remove (formatters : list string) (s : string) :
  literal_flags formatters = true ->
  covered formatters ->
  extract_custom_flags formatters (remove_custom_flags formatters s) = "".
Proof.
  intros _ Hcov. unfold extract_custom_flags.
  destruct (Str.is_empty (remove_custom_flags formatters s)); [reflexivity |].
  apply concat_all_empty. unfold Re.findall. apply findall_from_unmatched.
  intros a Hin Hne. apply in_app_or in Hin. destruct Hin as [Hin | [<- | []]].
  - apply sorted_In in Hin. destruct (Hcov a Hin Hne) as (c & Hc & Hflag).
    exists c. split; [exact Hc |]. now apply remove_custom_flags_absent.
  - exists "~"%char. split; [reflexivity |].
    apply remove_custom_flags_absent. now right.
Qed.

(** C3 as stated fails: with the single flag [Lx] registered, removing
    the marker from [L~x] brings the two characters of the flag together,
    and the flag is extracted from the result. *)
Lemma extract_after_remove_finds_flag :
  literal_flags ["Lx"] = true
  /\ remove_custom_flags ["Lx"] "L~x" = "Lx"
  /\ extract_custom_flags ["Lx"] (remove_custom_flags ["Lx"] "L~x") = "Lx"
  /\ extract_custom_flags ["Lx"] (remove_custom_flags ["Lx"] "L~x") <> "".
Proof. repeat split. vm_compute. discriminate. Qed.

Lemma extract_after_remove_witness :
  extract_custom_flags ["P"; "L"; "Lx"; "H"; "D"; "C"]
    (remove_custom_flags ["P"; "L"; "Lx"; "H"; "D"; "C"] "L~x.3fLLxxP")
  = "".
Proof.
  apply extract_after_remove; [reflexivity |].
  intros flag Hin Hne. simpl in Hin.
  destruct Hin as [<- | [<- | [<- | [<- | [<- | [<- | []]]]]]].
  - exists "P"%char. split; [reflexivity | left; simpl; tauto].
  - exists "L"%char. split; [reflexivity | left; simpl; tauto].
  - exists "L"%char. split; [reflexivity | left; simpl; tauto].
  - exists "H"%char. split; [reflexivity | left; simpl; tauto].
  - exists "D"%char. split; [reflexivity | left; simpl; tauto].
  - exists "C"%char. split; [reflexivity | left; simpl; tauto].
Defined.

(** ** Further properties of [formatter] *)

Lemma one_is_positive (value : Q) : Qeq_bool value 1 = true -> Qltb 0 value = true.
Proof.
  intros H. apply Qeq_bool_iff in H. apply Qltb_lt. rewrite H. reflexivity.
Qed.

Lemma format_power (key exponent : string) :
  Format.format default_power_fmt [key; exponent] = Ok (power key exponent).
Proof.
  unfold Format.format, default_power_fmt, power. cbn.
  now rewrite append_empty_r.
Qed.

(** One run of the loop body adds one term to the bucket of the sign of
    the exponent, whatever [power_fmt] is. *)
Lemma add_term_lengths (as_ratio : bool) (power_fmt : string) (fun_ : FORMATTER)
  (pos neg pos' neg' : list string) (item : string * Q) :
  add_term as_ratio power_fmt fun_ (pos, neg) item = Ok (pos', neg') ->
  List.length pos' = List.length pos + (if positive_item item then 1 else 0)
  /\ List.length neg' = List.length neg + (if positive_item item then 0 else 1).
Proof.
  destruct item as [key value]. unfold add_term, positive_item.
  cbv beta iota. cbn [snd].
  destruct (Qeq_bool value 1) eqn:E1.
  - rewrite (one_is_positive _ E1). intros H. injection H as <- <-.
    rewrite length_app. simpl. lia.
  - destruct (Qltb 0 value).
    + destruct (Format.format power_fmt [key; fun_ value]); [| discriminate].
      cbn [bind]. intros H. injection H as <- <-.
      rewrite length_app. simpl. lia.
    + destruct (Qeq_bool value (-1) && as_ratio).
      * intros H. injection H as <- <-. rewrite length_app. simpl. lia.
      * destruct (Format.format power_fmt [key; fun_ value]); [| discriminate].
        cbn [bind]. intros H. injection H as <- <-.
        rewrite length_app. simpl. lia.
Qed.

Lemma add_terms_lengths (as_ratio : bool) (power_fmt : string) (fun_ : FORMATTER)
  (items : list (string * Q)) :
  forall pos neg pos' neg',
    add_terms as_ratio power_fmt fun_ (pos, neg) items = Ok (pos', neg') ->
    List.length pos' = List.length pos + List.length (filter positive_item items)
    /\ List.length neg' = List.length neg + List.length (filter nonpositive_item items).
Proof.
  induction items as [|item items IH]; intros pos neg pos' neg';
    cbn [add_terms filter].
  - intros H. injection H as <- <-. simpl. lia.
  - destruct (add_term as_ratio power_fmt fun_ (pos, neg) item)
      as [[pos1 neg1] |] eqn:E; cbn [bind]; [| discriminate].
    intros H. apply IH in H. apply add_term_lengths in E.
    change (nonpositive_item item) with (negb (positive_item item)).
    destruct (positive_item item); simpl; lia.
Qed.

(** X1.  The loop of [formatter] shares the items out by the sign of the
    exponent: when it ends without error, the positive bucket has one term
    for each item with an exponent above 0 and the negative bucket one term
    for each other item, an exponent of 0 included; no item is dropped and
    none is counted twice. *)
Theorem buckets_partition_items (as_ratio : bool) (power_fmt : string)
  (fun_ : FORMATTER) (items : list (string * Q)) (pos_terms neg_terms : list string) :
  add_terms as_ratio power_fmt fun_ ([], []) items = Ok (pos_terms, neg_terms) ->
  List.length pos_terms = List.length (filter positive_item items)
  /\ List.length neg_terms = List.length (filter nonpositive_item items)
  /\ List.length pos_terms + List.length neg_terms = List.length items.
Proof.
  intros H. apply add_terms_lengths in H. simpl in H. destruct H as [Hp Hn].
  split; [exact Hp | split; [exact Hn |]].
  rewrite Hp, Hn.
  clear. induction items as [|item items IH]; simpl; [reflexivity |].
  change (nonpositive_item item) with (negb (positive_item item)).
  destruct (positive_item item); simpl; lia.
Qed.

Lemma buckets_partition_items_witness :
  List.length ["m"; "kg ** 2"] + List.length ["s ** 2"; "K ** 0"] = 4.
Proof.
  apply (proj2 (proj2 (buckets_partition_items true default_power_fmt
    (fun x => format_n (fun _ => "") (Qabs x))
    [("m", 1%Q); ("s", (-2)%Q); ("kg", 2%Q); ("K", 0%Q)]
    ["m"; "kg ** 2"] ["s ** 2"; "K ** 0"] eq_refl))).
Defined.

(** Under the default [power_fmt] the loop never fails and the buckets
    have a closed form. *)
Lemma add_terms_default (as_ratio : bool) (fun_ : FORMATTER)
  (items : list (string * Q)) :
  forall pos neg,
    add_terms as_ratio default_power_fmt fun_ (pos, neg) items
    = Ok ((pos ++ map (pos_term fun_) (filter positive_item items))%list,
          (neg ++ map (neg_term as_ratio fun_) (filter nonpositive_item items))%list).
Proof.
  induction items as [|[key value] items IH]; intros pos neg.
  - simpl. now rewrite !app_nil_r.
  - cbn [add_terms]. unfold add_term. cbv beta iota.
    cbn [filter]. unfold nonpositive_item, positive_item. cbn [snd].
    destruct (Qeq_bool value 1) eqn:E1.
    + rewrite (one_is_positive _ E1). cbn [bind negb map].
      fold positive_item. rewrite IH. unfold pos_term at 2. cbn [snd fst].
      rewrite E1. unfold nonpositive_item. now rewrite <- app_assoc.
    + destruct (Qltb 0 value) eqn:E0.
      * rewrite format_power. cbn [bind negb map]. rewrite IH.
        unfold pos_term at 2. cbn [snd fst]. rewrite E1.
        unfold nonpositive_item. now rewrite <- app_assoc.
      * destruct (Qeq_bool value (-1) && as_ratio) eqn:Em.
        -- cbn [bind negb map]. rewrite IH.
           unfold neg_term at 2. cbn [snd fst]. rewrite Em.
           unfold nonpositive_item. now rewrite <- app_assoc.
        -- rewrite format_power. cbn [bind negb map]. rewrite IH.
           unfold neg_term at 2. cbn [snd fst]. rewrite Em.
           unfold nonpositive_item. now rewrite <- app_assoc.
Qed.

Lemma filter_length_Permutation {A : Type} (f : A -> bool) (l l' : list A) :
  Permutation l l' -> List.length (filter f l) = List.length (filter f l').
Proof.
  induction 1 as [| x l l' _ IH | x y l | l l' l'' _ IH1 _ IH2]; simpl.
  - reflexivity.
  - destruct (f x); simpl; now rewrite IH.
  - destruct (f x), (f y); reflexivity.
  - now rewrite IH1.
Qed.

Lemma _join_single (fmt x : string) : _join fmt [x] = Ok x.
Proof. unfold _join. now destruct (Re.search_marker false fmt). Qed.


(** X3.  With [as_ratio] false and the default product and power
    formats, the result is the product, joined with [" * "], of the terms
    of the items with an exponent above 0 followed by the terms of the
    other items, exponents rendered with their sign; [division_fmt],
    [parentheses_fmt] and [single_denominator] play no part, even when
    they are not well-formed formats. *)
Theorem formatter_product_form (items : list (string * Q))
  (single_denominator sort : bool) (division_fmt parentheses_fmt : string)
  (exp_call : FORMATTER) :
  let its := if sort then sorted tuple_ltb items else items in
  formatter items false single_denominator default_product_fmt division_fmt
    default_power_fmt parentheses_fmt exp_call sort
  = Ok (String.concat " * "
          (map (pos_term exp_call) (filter positive_item its)
           ++ map (neg_term false exp_call) (filter nonpositive_item its))%list).
Proof.
  intros its. subst its. unfold formatter.
  destruct (if sort then sorted tuple_ltb items else items) as [|item its].
  - reflexivity.
  - rewrite add_terms_default. cbn [bind app negb].
    now rewrite (_join_separator default_product_fmt) by reflexivity.
Qed.

(** With [as_ratio] and the default formats, items that all have an
    exponent of at most 0 give [1] over the negative terms. *)
Lemma reciprocal_form (items : list (string * Q))
  (single_denominator sort : bool) (exp_call : FORMATTER) :
  items <> [] ->
  (forall item, In item items -> (snd item <= 0)%Q) ->
  let its := if sort then sorted tuple_ltb items else items in
  let neg := map (neg_term true (fun x => exp_call (Qabs x))) its in
  formatter items true single_denominator default_product_fmt
    default_division_fmt default_power_fmt default_parentheses_fmt
    exp_call sort
  = Ok ("1 / "
        ++ (if single_denominator
            then if (1 <? List.length neg)%nat
                 then "(" ++ String.concat " * " neg ++ ")"
                 else String.concat " * " neg
            else String.concat " / " neg)).
Proof.
  intros Hne Hall its neg.
  assert (Hits : forall item, In item its -> positive_item item = false).
  { intros item Hin. unfold positive_item. apply Qltb_ge. apply Hall.
    subst its. destruct sort; [| exact Hin]. now apply sorted_In in Hin. }
  assert (Hp : filter positive_item its = []).
  { clear -Hits. induction its as [|i its IH]; [reflexivity |].
    simpl. rewrite (Hits i) by now left.
    apply IH. intros item Hin. apply Hits. now right. }
  assert (Hn : filter nonpositive_item its = its).
  { clear -Hits. induction its as [|i its IH]; [reflexivity |].
    simpl. unfold nonpositive_item at 1. rewrite (Hits i) by now left.
    simpl. f_equal. apply IH. intros item Hin. apply Hits. now right. }
  assert (Hits_ne : its <> []).
  { subst its. destruct sort; [| exact Hne].
    intros E. apply Hne. apply Permutation_nil.
    rewrite <- E. apply sorted_Permutation. }
  subst neg. unfold formatter. fold its.
  destruct its as [|item its'] eqn:Eits; [contradiction |].
  rewrite add_terms_default, Hp, Hn. cbn [bind app negb map].
  rewrite (_join_separator default_product_fmt []) by reflexivity.
  cbn [bind String.concat Str.or_else Str.is_empty].
  destruct single_denominator.
  - rewrite (_join_separator default_product_fmt) by reflexivity. cbn [bind].
    cbn [map List.length].
    destruct (1 <? _)%nat.
    + rewrite format_parentheses. cbn [bind].
      now rewrite (_join_separator default_division_fmt) by reflexivity.
    + cbn [bind].
      now rewrite (_join_separator default_division_fmt) by reflexivity.
  - rewrite (_join_separator default_division_fmt (_ :: _)) by reflexivity.
    cbn [bind].
    now rewrite (_join_separator default_division_fmt) by reflexivity.
Qed.

(** X5.  [single_denominator] changes the result only when at least two
    items have an exponent of at most 0: with one such item or none, the
    two settings give the same result or raise the same error, whatever
    the formats are. *)
Theorem single_denominator_needs_two_terms (items : list (string * Q))
  (as_ratio : bool)
  (product_fmt division_fmt power_fmt parentheses_fmt : string)
  (exp_call : FORMATTER) (sort : bool) :
  List.length (filter nonpositive_item items) <= 1 ->
  formatter items as_ratio true product_fmt division_fmt power_fmt
    parentheses_fmt exp_call sort
  = formatter items as_ratio false product_fmt division_fmt power_fmt
      parentheses_fmt exp_call sort.
Proof.
  intros Hcount. unfold formatter.
  assert (Hits : List.length (filter nonpositive_item
                   (if sort then sorted tuple_ltb items else items)) <= 1).
  { destruct sort; [| exact Hcount].
    now rewrite (filter_length_Permutation _ _ _ (sorted_Permutation tuple_ltb items)). }
  destruct (if sort then sorted tuple_ltb items else items) as [|item its];
    [reflexivity |].
  destruct (add_terms as_ratio power_fmt _ ([], []) (item :: its))
    as [[pos neg] |] eqn:E; cbn [bind]; [| reflexivity].
  destruct as_ratio; cbn [negb]; [| reflexivity].
  destruct (_join product_fmt pos); cbn [bind]; [| reflexivity].
  apply add_terms_lengths in E. destruct E as [_ En].
  destruct neg as [|t [|t' neg]].
  - reflexivity.
  - now rewrite !_join_single.
  - cbn [List.length] in En. lia.
Qed.

Lemma single_denominator_needs_two_terms_witness :
  formatter [("m", 1%Q); ("s", (-2)%Q)] true true "{} * {}" "{} / {}"
    default_power_fmt "[{}]" (format_n (fun _ => "")) true
  = formatter [("m", 1%Q); ("s", (-2)%Q)] true false "{} * {}" "{} / {}"
      default_power_fmt "[{}]" (format_n (fun _ => "")) true.
Proof.
  apply single_denominator_needs_two_terms. vm_compute. lia.
Defined.

(** ** Further properties of [_join] *)

Lemma append_assoc (s t u : string) : (s ++ t) ++ u = s ++ (t ++ u).
Proof. induction s as [|c s IH]; simpl; [reflexivity | now rewrite IH]. Qed.

Lemma brace_free_cons (c : ascii) (sep : string) :
  brace_free (String c sep) = true ->
  Ascii.eqb c "{" = false /\ Ascii.eqb c "}" = false /\ brace_free sep = true.
Proof.
  unfold brace_free. cbn [Str.mem]. intros H.
  apply andb_true_iff in H. destruct H as [H1 H2].
  apply negb_true_iff in H1. apply negb_true_iff in H2.
  apply orb_false_iff in H1. apply orb_false_iff in H2.
  destruct H1 as [H1 H1']. destruct H2 as [H2 H2'].
  rewrite Ascii.eqb_sym in H1. rewrite Ascii.eqb_sym in H2.
  repeat split; try assumption.
  now rewrite H1', H2'.
Qed.

(** Text without braces is copied by [str.format]. *)
Lemma go_literal (args : list string) (num : Format.numbering) (sep rest : string) :
  brace_free sep = true ->
  Format.go args Format.Literal num (sep ++ rest)
  = r <- Format.go args Format.Literal num rest ;; Ok (sep ++ r).
Proof.
  induction sep as [|c sep IH]; intros H.
  - cbn [String.append].
    now destruct (Format.go args Format.Literal num rest).
  - apply brace_free_cons in H. destruct H as (H1 & H2 & H).
    cbn [String.append Format.go]. rewrite H1, H2, (IH H).
    now destruct (Format.go args Format.Literal num rest).
Qed.

Lemma format_pair (sep a b : string) :
  brace_free sep = true ->
  Format.format ("{}" ++ sep ++ "{}") [a; b] = Ok (a ++ sep ++ b).
Proof.
  intros H. unfold Format.format.
  change ("{}" ++ sep ++ "{}") with (String "{" (String "}" (sep ++ "{}"))).
  cbn [Format.go Ascii.eqb Bool.eqb Format.auto_field Format.arg nth_error bind
       fst snd].
  rewrite (go_literal _ _ _ _ H). cbn.
  now rewrite append_empty_r.
Qed.

Lemma search_marker_brace_free (sep : string) :
  brace_free sep = true -> Re.search_marker false sep = false.
Proof.
  induction sep as [|c sep IH]; intros H; [reflexivity |].
  apply brace_free_cons in H. destruct H as (H1 & _ & H).
  cbn [Re.search_marker]. rewrite H1. cbn [andb]. now apply IH.
Qed.

Lemma _join_fold_pair (sep : string) (miter : list string) :
  brace_free sep = true ->
  forall first,
    _join_fold ("{}" ++ sep ++ "{}") first miter
    = Ok (String.concat sep (first :: miter)).
Proof.
  intros H. induction miter as [|val miter IH]; intros first.
  - reflexivity.
  - cbn [_join_fold]. rewrite (format_pair _ _ _ H). cbn [bind]. rewrite IH.
    cbn [String.concat]. destruct miter as [|val' miter].
    + reflexivity.
    + now rewrite !append_assoc.
Qed.

(** X6.  The two ways of giving a format to [_join] agree: for a
    separator without braces, the format with two replacement fields
    around the separator and the separator alone both give the elements
    with the separator between them. *)
Theorem _join_two_styles_agree (sep : string) (iterable : list string) :
  brace_free sep = true ->
  _join ("{}" ++ sep ++ "{}") iterable = Ok (String.concat sep iterable)
  /\ _join sep iterable = Ok (String.concat sep iterable).
Proof.
  intros H. split.
  - destruct iterable as [|first miter]; [reflexivity |].
    unfold _join.
    change (Re.search_marker false ("{}" ++ sep ++ "{}")) with true.
    cbn [negb]. now apply _join_fold_pair.
  - apply _join_separator. now apply search_marker_brace_free.
Qed.

Lemma _join_two_styles_agree_witness :
  _join "{} * {}" ["m"; "kg"; "s ** 2"] = Ok "m * kg * s ** 2".
Proof.
  apply (proj1 (_join_two_styles_agree " * " ["m"; "kg"; "s ** 2"] eq_refl)).
Defined.

(** X4.  With [as_ratio] and the default formats, items that all have an
    exponent of at most 0 give [1] over the denominator: the result is
    ["1 / "] followed by the negative terms, joined as
    [single_denominator] asks.  Joined to a magnitude by [join_mu] with
    the template ["{} {}"], that unit string loses its leading [1]: the
    result is the magnitude, [" / "] and the negative terms. *)
Theorem formatter_reciprocal_starts_with_one (items : list (string * Q))
  (single_denominator sort : bool) (exp_call : FORMATTER) (mstr : string) :
  items <> [] ->
  (forall item, In item items -> (snd item <= 0)%Q) ->
  let its := if sort then sorted tuple_ltb items else items in
  let neg := map (neg_term true (fun x => exp_call (Qabs x))) its in
  let denominator :=
    if single_denominator
    then if (1 <? List.length neg)%nat
         then "(" ++ String.concat " * " neg ++ ")"
         else String.concat " * " neg
    else String.concat " / " neg in
  formatter items true single_denominator default_product_fmt
    default_division_fmt default_power_fmt default_parentheses_fmt
    exp_call sort
  = Ok ("1 / " ++ denominator)
  /\ (ustr <- formatter items true single_denominator default_product_fmt
                default_division_fmt default_power_fmt default_parentheses_fmt
                exp_call sort ;;
      join_mu "{} {}" mstr ustr)
     = Ok (mstr ++ " / " ++ denominator).
Proof.
  intros Hne Hall its neg denominator.
  pose proof (reciprocal_form items single_denominator sort exp_call Hne Hall)
    as H.
  cbv zeta in H. fold its in H. fold neg in H. fold denominator in H.
  split; [exact H |].
  rewrite H. cbn [bind]. unfold join_mu, Str.startswith.
  assert (P : String.prefix "1 / " ("1 / " ++ denominator) = true)
    by (clearbody denominator; now destruct denominator).
  rewrite P.
  exact (format_pair " " mstr ("/ " ++ denominator) eq_refl).
Qed.

Lemma formatter_reciprocal_starts_with_one_witness :
  (ustr <- formatter [("s", (-2)%Q); ("K", 0%Q)] true true default_product_fmt
             default_division_fmt default_power_fmt default_parentheses_fmt
             (format_n (fun _ => "")) false ;;
   join_mu "{} {}" "5" ustr)
  = Ok "5 / (s ** 2 * K ** 0)".
Proof.
  apply (formatter_reciprocal_starts_with_one
           [("s", (-2)%Q); ("K", 0%Q)] true false (format_n (fun _ => "")) "5").
  - discriminate.
  - intros item [<- | [<- | []]]; simpl; discriminate.
Defined.

(** ** Further properties of [split_format] *)

(** X7.  On a registry of literal flags, with an empty [spec] the three
    settings of [separate_format_defaults] all return the two parts of the
    default, without any warning. *)
Theorem split_format_empty_spec (formatters : list string) (default : string)
  (separate_format_defaults : option bool) :
  literal_flags formatters = true ->
  split_format formatters "" default separate_format_defaults
  = ((remove_custom_flags formatters default,
      extract_custom_flags formatters default), []).
Proof.
  intros _. unfold split_format.
  rewrite remove_custom_flags_empty, extract_custom_flags_empty.
  destruct separate_format_defaults as [[|] |]; reflexivity.
Qed.

Lemma split_format_empty_spec_witness :
  literal_flags ["P"; "L"; "Lx"] = true
  /\ split_format ["P"; "L"; "Lx"] "" ".3fLx" None = ((".3f", "Lx"), []).
Proof.
  assert (L : literal_flags ["P"; "L"; "Lx"] = true) by reflexivity.
  split; [exact L |].
  exact (split_format_empty_spec ["P"; "L"; "Lx"] ".3fLx" None L).
Defined.

(** X8.  On a registry of literal flags, [None] and [False] return the
    same pair on every input: the warnings are the only difference.  Under [None] there is no warning
    exactly when [spec] is empty or every field of [spec] that is empty has
    an empty default as well. *)
Theorem split_format_none_same_value (formatters : list string)
  (spec default : string) :
  literal_flags formatters = true ->
  fst (split_format formatters spec default None)
  = fst (split_format formatters spec default (Some false))
  /\ (snd (split_format formatters spec default None) = [] <->
      spec = ""
      \/ ((extract_custom_flags formatters spec <> ""
           \/ extract_custom_flags formatters default = "")
          /\ (remove_custom_flags formatters spec <> ""
              \/ remove_custom_flags formatters default = ""))).
Proof.
  intros _. unfold split_format. destruct spec as [|c spec].
  - split; [reflexivity |]. split; [now left | reflexivity].
  - cbn [Str.is_empty negb andb fst snd].
    set (u := extract_custom_flags formatters (String c spec)).
    set (m := remove_custom_flags formatters (String c spec)).
    set (du := extract_custom_flags formatters default).
    set (dm := remove_custom_flags formatters default).
    split; [reflexivity |].
    destruct u, du, m, dm; cbn; split; intros H;
      try discriminate; try reflexivity;
      try (right; split; (left; discriminate) || (right; reflexivity));
      try (destruct H as [H | [[H | H] [H' | H']]];
           discriminate || congruence).
Qed.

Lemma split_format_none_same_value_witness :
  literal_flags ["P"; "L"; "Lx"] = true
  /\ fst (split_format ["P"; "L"; "Lx"] "Lx" ".3fP" None)
     = fst (split_format ["P"; "L"; "Lx"] "Lx" ".3fP" (Some false)).
Proof.
  assert (L : literal_flags ["P"; "L"; "Lx"] = true) by reflexivity.
  split; [exact L |].
  exact (proj1 (split_format_none_same_value ["P"; "L"; "Lx"] "Lx" ".3fP" L)).
Defined.

(** ** Further properties of the flag operations *)

Lemma subsequence_refl (s : string) : subsequence s s.
Proof.
  induction s; [apply subsequence_empty | now apply subsequence_keep].
Qed.

Lemma subsequence_trans (s t u : string) :
  subsequence s t -> subsequence t u -> subsequence s u.
Proof.
  intros Hst Htu. revert s Hst.
  induction Htu as [| c t u _ IH | c t u _ IH]; intros s Hst.
  - exact Hst.
  - apply subsequence_drop. now apply IH.
  - inversion Hst; subst.
    + apply subsequence_drop. now apply IH.
    + apply subsequence_keep. now apply IH.
Qed.

Lemma remove_from_subsequence (old s : string) :
  forall skip, subsequence (Str.remove_from old skip s) s.
Proof.
  induction s as [|c s IH]; intros skip; cbn [Str.remove_from].
  - apply subsequence_empty.
  - destruct skip as [|k].
    + destruct (Str.is_empty old).
      * apply subsequence_keep, IH.
      * destruct (String.prefix old (String c s)).
        -- apply subsequence_drop, IH.
        -- apply subsequence_keep, IH.
    + apply subsequence_drop, IH.
Qed.

Lemma remove_steps_subsequence (flags : list string) :
  forall s, subsequence (fold_left remove_step flags s) s.
Proof.
  induction flags as [|flag flags IH]; intros s; simpl.
  - apply subsequence_refl.
  - apply subsequence_trans with (remove_step s flag); [apply IH |].
    unfold remove_step. destruct (negb (Str.is_empty flag)).
    + apply remove_from_subsequence.
    + apply subsequence_refl.
Qed.

Lemma mem_list_In (x : string) (l : list string) :
  Str.mem_list x l = true <-> In x l.
Proof.
  induction l as [|y l IH]; cbn [Str.mem_list In].
  - split; [discriminate | contradiction].
  - rewrite orb_true_iff, IH, String.eqb_eq. split; intros [H | H]; auto.
Qed.

(** X9.  [remove_custom_flags] only deletes characters: what it returns
    is the spec with some characters left out, in the same order, and it
    contains neither the marker [~] nor any character that is a flag by
    itself. *)
Theorem remove_custom_flags_only_deletes (formatters : list string) (spec : string) :
  subsequence (remove_custom_flags formatters spec) spec
  /\ forall c, flag_char formatters c = true ->
               Str.mem c (remove_custom_flags formatters spec) = false.
Proof.
  split.
  - unfold remove_custom_flags.
    change (fun spec flag : string =>
              if negb (Str.is_empty flag) then Str.remove flag spec else spec)
      with remove_step.
    apply remove_steps_subsequence.
  - intros c H. apply remove_custom_flags_absent.
    unfold flag_char in H. apply mem_list_In in H.
    apply in_app_or in H. destruct H as [H | [H | []]]; [now left | right].
    now injection H.
Qed.

(** A flag with a character that the string lacks occurs nowhere in it,
    and removing it changes nothing. *)
Lemma remove_absent_flag (old s : string) (c : ascii) :
  Str.mem c old = true -> Str.mem c s = false -> Str.remove old s = s.
Proof.
  intros Hold. unfold Str.remove.
  induction s as [|a s IH]; intros Hs; [reflexivity |].
  cbn [Str.remove_from].
  destruct (Str.is_empty old); [f_equal; apply IH |].
  - simpl in Hs. apply orb_false_iff in Hs. tauto.
  - destruct (String.prefix old (String a s)) eqn:E.
    + rewrite (prefix_mem _ _ _ E Hold) in Hs. discriminate.
    + f_equal. apply IH. simpl in Hs. apply orb_false_iff in Hs. tauto.
Qed.

Lemma remove_steps_fixed (flags : list string) (s : string) :
  (forall flag, In flag flags -> flag <> "" ->
     exists c, Str.mem c flag = true /\ Str.mem c s = false) ->
  fold_left remove_step flags s = s.
Proof.
  induction flags as [|flag flags IH]; intros H; simpl; [reflexivity |].
  assert (E : remove_step s flag = s).
  { unfold remove_step. destruct flag as [|a flag]; [reflexivity |].
    destruct (H (String a flag)) as (c & Hc & Hs); [now left | discriminate |].
    cbn [Str.is_empty negb]. exact (remove_absent_flag _ _ _ Hc Hs). }
  rewrite E. apply IH. intros f Hin. apply H. now right.
Qed.

(** X10.  When every non-empty flag of the registry contains a character
    that is a flag by itself or the marker [~], [remove_custom_flags] is
    idempotent: a second pass finds nothing left to remove. *)
Theorem remove_custom_flags_idempotent (formatters : list string) (spec : string) :
  covered formatters ->
  remove_custom_flags formatters (remove_custom_flags formatters spec)
  = remove_custom_flags formatters spec.
Proof.
  intros Hcov.
  set (r := remove_custom_flags formatters spec).
  unfold remove_custom_flags at 1.
  change (fun spec flag : string =>
            if negb (Str.is_empty flag) then Str.remove flag spec else spec)
    with remove_step.
  apply remove_steps_fixed. intros flag Hin Hne.
  apply in_app_or in Hin. destruct Hin as [Hin | [<- | []]].
  - apply sorted_In in Hin. destruct (Hcov flag Hin Hne) as (c & Hc & Hflag).
    exists c. split; [exact Hc |]. now apply remove_custom_flags_absent.
  - exists "~"%char. split; [reflexivity |].
    apply remove_custom_flags_absent. now right.
Qed.

Lemma remove_custom_flags_idempotent_witness :
  remove_custom_flags ["P"; "L"; "Lx"]
    (remove_custom_flags ["P"; "L"; "Lx"] "L~x.3fLLxxP")
  = remove_custom_flags ["P"; "L"; "Lx"] "L~x.3fLLxxP".
Proof.
  apply remove_custom_flags_idempotent.
  intros flag Hin Hne. simpl in Hin.
  destruct Hin as [<- | [<- | [<- | []]]].
  - exists "P"%char. split; [reflexivity | left; simpl; tauto].
  - exists "L"%char. split; [reflexivity | left; simpl; tauto].
  - exists "L"%char. split; [reflexivity | left; simpl; tauto].
Defined.

Lemma findall_from_skip (alts : list string) (s : string) :
  forall skip,
    Re.findall_from alts skip s = Re.findall_from alts 0 (Str.slice_from skip s).
Proof.
  induction s as [|c s IH]; intros skip.
  - now destruct skip.
  - destruct skip as [|k]; [reflexivity |].
    cbn [Re.findall_from Str.slice_from]. apply IH.
Qed.

Lemma slice_from_app (m rest : string) :
  Str.slice_from (String.length m) (m ++ rest) = rest.
Proof.
  induction m as [|c m IH]; simpl; [now destruct rest | exact IH].
Qed.

Lemma concat_cons (x : string) (l : list string) :
  String.concat "" (x :: l) = x ++ String.concat "" l.
Proof.
  cbn [String.concat]. destruct l; [now rewrite append_empty_r | reflexivity].
Qed.

Lemma subsequence_app (p x r : string) :
  subsequence x r -> subsequence (p ++ x) (p ++ r).
Proof.
  intros H. induction p as [|c p IH]; [exact H |].
  simpl. now apply subsequence_keep.
Qed.

Lemma length_app_string (s t : string) :
  String.length (s ++ t) = String.length s + String.length t.
Proof. induction s as [|c s IH]; simpl; [reflexivity | now rewrite IH]. Qed.

(** A non-empty match at the start of the string, followed by the matches
    found after it. *)
Lemma match_then_rest (alts : list string) (c : ascii) (s m : string) :
  m <> "" ->
  String.prefix m (String c s) = true ->
  (forall rest, String.length rest <= String.length s ->
     subsequence (String.concat "" (Re.findall_from alts 0 rest)) rest) ->
  subsequence
    (String.concat "" (m :: Re.findall_from alts (String.length m - 1) s))
    (String c s).
Proof.
  intros Hne Hp IH. destruct m as [|a m]; [contradiction |].
  apply prefix_cons_inv in Hp. destruct Hp as [-> Hp].
  apply prefix_app in Hp. destruct Hp as [rest ->].
  rewrite concat_cons, findall_from_skip.
  cbn [String.length Nat.sub]. rewrite Nat.sub_0_r, slice_from_app.
  cbn [String.append]. apply subsequence_keep, subsequence_app, IH.
  rewrite length_app_string. lia.
Qed.

Lemma findall_subsequence (alts : list string) (n : nat) :
  forall s, String.length s <= n ->
            subsequence (String.concat "" (Re.findall_from alts 0 s)) s.
Proof.
  induction n as [|n IH]; intros s Hn.
  - destruct s as [|c s]; [| simpl in Hn; lia].
    cbn [Re.findall_from].
    destruct (Re.first_match alts "") as [m |] eqn:E; [| apply subsequence_empty].
    apply first_match_In in E. destruct E as [_ E].
    destruct m as [|a m]; [apply subsequence_empty | discriminate E].
  - destruct s as [|c s]; [apply IH; simpl; lia |].
    simpl in Hn.
    assert (IHs : forall rest, String.length rest <= String.length s ->
              subsequence (String.concat "" (Re.findall_from alts 0 rest)) rest).
    { intros rest Hr. apply IH. lia. }
    cbn [Re.findall_from].
    destruct (Re.first_match alts (String c s)) as [m |] eqn:E.
    + destruct (Str.is_empty m) eqn:Em.
      * apply is_empty_true in Em. subst m. rewrite concat_cons.
        cbn [String.append].
        destruct (Re.first_match (Re.nonempty alts) (String c s)) as [m' |] eqn:E'.
        -- apply first_match_In in E'. destruct E' as [Hin Hp].
           apply filter_In in Hin. destruct Hin as [_ Hne].
           apply negb_true_iff, is_empty_false in Hne.
           now apply match_then_rest.
        -- apply subsequence_drop, IHs. lia.
      * apply is_empty_false in Em.
        apply first_match_In in E. destruct E as [_ Hp].
        now apply match_then_rest.
    + apply subsequence_drop, IHs. lia.
Qed.

Lemma findall_from_In (alts : list string) (s : string) :
  forall skip, Forall (fun m => In m alts) (Re.findall_from alts skip s).
Proof.
  induction s as [|c s IH]; intros skip; cbn [Re.findall_from].
  - destruct (Re.first_match alts "") as [m |] eqn:E; [| constructor].
    apply first_match_In in E. repeat constructor. tauto.
  - destruct skip as [|k]; [| apply IH].
    destruct (Re.first_match alts (String c s)) as [m |] eqn:E; [| apply IH].
    apply first_match_In in E. destruct E as [Hin _].
    destruct (Str.is_empty m).
    + constructor; [exact Hin |].
      destruct (Re.first_match (Re.nonempty alts) (String c s)) as [m' |] eqn:E';
        [| apply IH].
      apply first_match_In in E'. destruct E' as [Hin' _].
      apply filter_In in Hin'. constructor; [tauto | apply IH].
    + constructor; [exact Hin | apply IH].
Qed.

(** X11.  On a registry of literal flags, what [extract_custom_flags]
    returns is made of registered flags and of the marker [~] put end to
    end, and it is the spec with some characters left out, in the same
    order: nothing is extracted that the spec does not contain. *)
Theorem extract_custom_flags_from_spec (formatters : list string) (spec : string) :
  literal_flags formatters = true ->
  subsequence (extract_custom_flags formatters spec) spec
  /\ exists pieces,
       extract_custom_flags formatters spec = String.concat "" pieces
       /\ Forall (fun p => In p formatters \/ p = "~") pieces.
Proof.
  intros _. unfold extract_custom_flags.
  destruct (Str.is_empty spec) eqn:E.
  - apply is_empty_true in E. subst spec. split; [apply subsequence_empty |].
    exists []. split; [reflexivity | constructor].
  - split.
    + apply (findall_subsequence _ (String.length spec)). lia.
    + exists (Re.findall (sorted longer formatters ++ ["~"])%list spec).
      split; [reflexivity |].
      unfold Re.findall.
      eapply Forall_impl; [| apply findall_from_In].
      intros p Hin. apply in_app_or in Hin.
      destruct Hin as [Hin | [<- | []]]; [left | now right].
      now apply sorted_In in Hin.
Qed.

Lemma extract_custom_flags_from_spec_witness :
  subsequence (extract_custom_flags ["P"; "L"; "Lx"] ".3fLx~") ".3fLx~".
Proof.
  apply (proj1 (extract_custom_flags_from_spec ["P"; "L"; "Lx"] ".3fLx~" eq_refl)).
Defined.

Lemma one_char_inv (a : string) :
  String.length a = 1 -> exists d, a = Str.of_char d.
Proof.
  destruct a as [|d [|e a]]; simpl; intros H; try discriminate.
  now exists d.
Qed.

Lemma of_char_eqb (c d : ascii) :
  String.eqb (Str.of_char c) (Str.of_char d) = Ascii.eqb c d.
Proof.
  unfold Str.of_char. cbn [String.eqb]. now destruct (Ascii.eqb c d).
Qed.

Lemma mem_list_ext (x : string) (l l' : list string) :
  (In x l <-> In x l') -> Str.mem_list x l = Str.mem_list x l'.
Proof.
  intros H. destruct (Str.mem_list x l) eqn:E, (Str.mem_list x l') eqn:E';
    try reflexivity.
  - apply mem_list_In, H, mem_list_In in E. congruence.
  - apply mem_list_In, H, mem_list_In in E'. congruence.
Qed.

Lemma first_match_one_char (alts : list string) (c : ascii) (s : string) :
  one_char alts ->
  Re.first_match alts (String c s)
  = if Str.mem_list (Str.of_char c) alts then Some (Str.of_char c) else None.
Proof.
  induction alts as [|a alts IH]; intros H; [reflexivity |].
  destruct (one_char_inv a) as [d ->]; [apply H; now left |].
  cbn [Re.first_match Str.mem_list].
  rewrite prefix_char, of_char_eqb, (Ascii.eqb_sym c d).
  destruct (Ascii.eqb d c) eqn:E.
  - apply Ascii.eqb_eq in E. now subst.
  - cbn [orb]. apply IH. intros b Hb. apply H. now right.
Qed.

Lemma first_match_one_char_end (alts : list string) :
  one_char alts -> Re.first_match alts "" = None.
Proof.
  induction alts as [|a alts IH]; intros H; [reflexivity |].
  destruct (one_char_inv a) as [d ->]; [apply H; now left |].
  cbn. apply IH. intros b Hb. apply H. now right.
Qed.

Lemma findall_one_char (alts : list string) (s : string) :
  one_char alts ->
  String.concat "" (Re.findall_from alts 0 s)
  = string_of_list_ascii
      (filter (fun c => Str.mem_list (Str.of_char c) alts) (chars s)).
Proof.
  intros H. induction s as [|c s IH].
  - cbn [Re.findall_from]. now rewrite (first_match_one_char_end _ H).
  - cbn [Re.findall_from]. rewrite (first_match_one_char _ _ _ H).
    cbn [chars list_ascii_of_string filter]. fold (chars s).
    destruct (Str.mem_list (Str.of_char c) alts).
    + cbn [Str.is_empty Str.of_char String.length Nat.sub].
      rewrite concat_cons, IH. reflexivity.
    + exact IH.
Qed.

Lemma chars_remove_char (c : ascii) (s : string) :
  chars (Str.remove (Str.of_char c) s)
  = filter (fun d => negb (Ascii.eqb c d)) (chars s).
Proof.
  unfold Str.remove.
  induction s as [|a s IH]; [reflexivity |].
  cbn [Str.remove_from]. change (Str.is_empty (Str.of_char c)) with false.
  cbv iota. rewrite prefix_char.
  cbn [chars list_ascii_of_string filter]. fold (chars s).
  destruct (Ascii.eqb c a); cbn [negb].
  - exact IH.
  - cbn [chars list_ascii_of_string]. fold (chars (Str.remove_from (Str.of_char c) 0 s)).
    now rewrite IH.
Qed.

Lemma filter_twice {A : Type} (p q : A -> bool) (l : list A) :
  filter p (filter q l) = filter (fun x => q x && p x) l.
Proof.
  induction l as [|x l IH]; [reflexivity |].
  simpl. destruct (q x); simpl; [destruct (p x) |]; now rewrite IH.
Qed.

Lemma chars_remove_steps (flags : list string) :
  one_char flags ->
  forall s,
    chars (fold_left remove_step flags s)
    = filter (fun d => negb (Str.mem_list (Str.of_char d) flags)) (chars s).
Proof.
  induction flags as [|flag flags IH]; intros H s.
  - cbn [fold_left Str.mem_list negb].
    induction (chars s) as [|x l IHl]; [reflexivity | simpl; now rewrite <- IHl].
  - destruct (one_char_inv flag) as [c ->]; [apply H; now left |].
    cbn [fold_left]. rewrite IH by (intros b Hb; apply H; now right).
    unfold remove_step. cbn [Str.is_empty Str.of_char negb].
    fold (Str.of_char c). rewrite chars_remove_char, filter_twice.
    apply filter_ext. intros d. cbn [Str.mem_list].
    rewrite of_char_eqb, (Ascii.eqb_sym d c). now rewrite negb_orb.
Qed.

(** X12.  When every flag of the registry is a single literal character,
    the two operations share the characters of the spec out: the unit spec
    extracted is the characters that are flags or [~], the magnitude spec
    left is all the other characters, each in the order of the spec. *)
Theorem one_char_flags_partition (formatters : list string) (spec : string) :
  literal_flags formatters = true ->
  one_char formatters ->
  extract_custom_flags formatters spec
  = string_of_list_ascii (filter (flag_char formatters) (chars spec))
  /\ remove_custom_flags formatters spec
     = string_of_list_ascii
         (filter (fun c => negb (flag_char formatters c)) (chars spec)).
Proof.
  intros _ H.
  assert (Hall : one_char (sorted longer formatters ++ ["~"])%list).
  { intros a Hin. apply in_app_or in Hin. destruct Hin as [Hin | [<- | []]].
    - apply H. now apply sorted_In in Hin.
    - reflexivity. }
  assert (Hmem : forall c,
            Str.mem_list (Str.of_char c) (sorted longer formatters ++ ["~"])%list
            = flag_char formatters c).
  { intros c. unfold flag_char. apply mem_list_ext.
    rewrite !in_app_iff, sorted_In. tauto. }
  split.
  - unfold extract_custom_flags. destruct spec as [|c spec]; [reflexivity |].
    cbn [Str.is_empty]. unfold Re.findall. rewrite (findall_one_char _ _ Hall).
    f_equal. apply filter_ext. exact Hmem.
  - unfold remove_custom_flags.
    change (fun spec flag : string =>
              if negb (Str.is_empty flag) then Str.remove flag spec else spec)
      with remove_step.
    rewrite <- (string_of_list_ascii_of_string (fold_left _ _ _)).
    fold (chars (fold_left remove_step
                   (sorted longer formatters ++ ["~"])%list spec)).
    rewrite (chars_remove_steps _ Hall).
    f_equal. apply filter_ext. intros c. now rewrite Hmem.
Qed.

Lemma one_char_flags_partition_witness :
  extract_custom_flags ["P"; "L"; "H"] "~.3Pf" = "~P"
  /\ remove_custom_flags ["P"; "L"; "H"] "~.3Pf" = ".3f".
Proof.
  apply (one_char_flags_partition ["P"; "L"; "H"] "~.3Pf" eq_refl).
  intros a [<- | [<- | [<- | []]]]; reflexivity.
Defined.

(** ** Further properties of [_parse_spec] *)

Lemma loop_stops_at_boundary (formatters : list string) (b : ascii)
  (l rest rest' : list ascii) :
  boundary formatters b = true ->
  forall result,
    _parse_spec_loop formatters result (l ++ b :: rest)
    = _parse_spec_loop formatters result (l ++ b :: rest').
Proof.
  intros Hb. induction l as [|ch l IH]; intros result; cbn [List.app].
  - now rewrite !loop_boundary.
  - rewrite !loop_step.
    destruct (skipped ch); [apply IH |].
    destruct (Str.mem_list _ _); [| reflexivity].
    destruct (negb (Str.is_empty result)); [reflexivity | apply IH].
Qed.

(** X13.  [_parse_spec] never looks past a boundary character, one that
    is neither alphabetic, nor a basic type, nor [~], nor a flag: whatever
    the spec has before it can be dropped or replaced without changing the
    result or the error. *)
Theorem parse_spec_ignores_before_boundary (formatters : list string)
  (pre pre' tail : string) (b : ascii) :
  boundary formatters b = true ->
  _parse_spec formatters (pre ++ String b tail)
  = _parse_spec formatters (pre' ++ String b tail).
Proof.
  intros Hb. unfold _parse_spec. rewrite !reversed_split.
  now apply loop_stops_at_boundary.
Qed.

Lemma parse_spec_ignores_before_boundary_witness :
  _parse_spec ["P"; "L"] ("q>08" ++ String "." "3fP")
  = _parse_spec ["P"; "L"] ("" ++ String "." "3fP").
Proof.
  apply parse_spec_ignores_before_boundary. reflexivity.
Defined.

Lemma mem_chars (c : ascii) (s : string) :
  Str.mem c s = true <-> In c (chars s).
Proof.
  induction s as [|d s IH]; cbn [Str.mem chars list_ascii_of_string In].
  - split; [discriminate | contradiction].
  - fold (chars s). rewrite orb_true_iff, IH, Ascii.eqb_eq.
    split; intros [H | H]; auto.
Qed.

Lemma is_flag_of_parts (formatters : list string) (ch : ascii) :
  skipped ch = false ->
  Str.mem_list (Str.of_char ch) (formatters ++ ["~"])%list = true ->
  is_flag formatters ch = true.
Proof. unfold is_flag. now intros -> ->. Qed.

Lemma unknown_of_parts (formatters : list string) (ch : ascii) :
  skipped ch = false ->
  Str.mem_list (Str.of_char ch) (formatters ++ ["~"])%list = false ->
  Str.isalpha ch = true ->
  unknown_conversion formatters ch = true.
Proof. unfold unknown_conversion, is_flag. now intros -> -> ->. Qed.

(** The four ways the loop can end, when it starts with no flag or with
    a flag of [spec] held. *)
Lemma loop_outcomes (formatters : list string) (spec : string) (l : list ascii) :
  (forall c, In c l -> Str.mem c spec = true) ->
  forall result,
    result = ""
    \/ (exists c, result = Str.of_char c /\ is_flag formatters c = true
                  /\ Str.mem c spec = true) ->
    _parse_spec_loop formatters result l = Ok ""
    \/ (exists c, _parse_spec_loop formatters result l = Ok (Str.of_char c)
                  /\ is_flag formatters c = true /\ Str.mem c spec = true)
    \/ _parse_spec_loop formatters result l = Raise expected_colon
    \/ (exists c, _parse_spec_loop formatters result l
                  = Raise (unknown_conversion_error c)
                  /\ unknown_conversion formatters c = true
                  /\ Str.mem c spec = true).
Proof.
  induction l as [|ch l IH]; intros Hl result Hr.
  - cbn [_parse_spec_loop].
    destruct Hr as [-> | (c & -> & Hc)]; [now left | right; left; now exists c].
  - assert (Hl' : forall c, In c l -> Str.mem c spec = true)
      by (intros c Hc; apply Hl; now right).
    assert (Hch : Str.mem ch spec = true) by (apply Hl; now left).
    rewrite loop_step.
    destruct (skipped ch) eqn:Es; [now apply IH |].
    destruct (Str.mem_list _ _) eqn:Ef.
    + destruct (Str.is_empty result) eqn:Er; cbn [negb].
      * apply IH; [exact Hl' |]. right. exists ch.
        repeat split; [now apply is_flag_of_parts | exact Hch].
      * right. right. now left.
    + destruct (Str.isalpha ch) eqn:Ea.
      * right. right. right. exists ch.
        repeat split; [now apply unknown_of_parts | exact Hch].
      * destruct Hr as [-> | (c & -> & Hc)];
          [now left | right; left; now exists c].
Qed.

(** X14.  [_parse_spec] ends in one of four ways: it returns the empty
    string; it returns a single character of the spec that is a registered
    flag; it raises the error about the missing colon; or it raises the
    error about an unknown conversion, naming a character of the spec that
    is alphabetic and neither basic type nor flag. *)
Theorem parse_spec_outcomes (formatters : list string) (spec : string) :
  _parse_spec formatters spec = Ok ""
  \/ (exists c, _parse_spec formatters spec = Ok (Str.of_char c)
                /\ is_flag formatters c = true /\ Str.mem c spec = true)
  \/ _parse_spec formatters spec
     = Raise (ValueError "expected ':' after format specifier")
  \/ (exists c, _parse_spec formatters spec
                = Raise (ValueError ("Unknown conversion specified " ++ Str.of_char c))
                /\ unknown_conversion formatters c = true
                /\ Str.mem c spec = true).
Proof.
  unfold _parse_spec. apply loop_outcomes; [| now left].
  intros c Hc. rewrite reversed_rev in Hc. apply in_rev in Hc.
  now apply mem_chars.
Qed.

(** ** Further properties of [sorted] in [formatter] *)

Lemma symbol_lt_trans (a b c : string * Q) :
  symbol_lt a b -> symbol_lt b c -> symbol_lt a c.
Proof. unfold symbol_lt. apply OrderedTypeEx.String_as_OT.lt_trans. Qed.

Lemma symbol_lt_irrefl (a : string * Q) : ~ symbol_lt a a.
Proof.
  unfold symbol_lt. intros H.
  apply (OrderedTypeEx.String_as_OT.lt_not_eq _ _ H). reflexivity.
Qed.

(** Between tuples of different symbols, not going after means going
    before by the symbol. *)
Lemma not_after_symbol_lt (a b : string * Q) :
  fst a <> fst b -> not_after tuple_ltb a b -> symbol_lt a b.
Proof.
  unfold not_after, tuple_ltb, symbol_lt. intros Hne H.
  assert (E : String.eqb (fst b) (fst a) = false).
  { apply String.eqb_neq. congruence. }
  rewrite E in H. unfold String.ltb in H.
  apply OrderedTypeEx.String_as_OT.cmp_lt.
  unfold OrderedTypeEx.String_as_OT.cmp.
  rewrite String.compare_antisym.
  destruct (String.compare (fst b) (fst a)) eqn:C.
  - apply String.compare_eq_iff in C. congruence.
  - discriminate.
  - reflexivity.
Qed.

Lemma Sorted_symbol_lt (l : list (string * Q)) :
  NoDup (map fst l) -> Sorted (not_after tuple_ltb) l -> StronglySorted symbol_lt l.
Proof.
  intros Hnd Hs. apply Sorted_StronglySorted.
  - intros a b c. apply symbol_lt_trans.
  - induction Hs as [| x l Hl IH Hx]; [constructor |].
    simpl in Hnd. inversion Hnd as [| ? ? Hnotin Hnd']; subst.
    constructor; [now apply IH |].
    destruct Hx as [| y l Hxy]; constructor.
    apply not_after_symbol_lt; [| exact Hxy].
    intros E. apply Hnotin. simpl. now left.
Qed.

(** Two lists sorted by the symbols with the same elements are equal. *)
Lemma StronglySorted_unique (l1 : list (string * Q)) :
  forall l2,
    StronglySorted symbol_lt l1 -> StronglySorted symbol_lt l2 ->
    Permutation l1 l2 -> l1 = l2.
Proof.
  induction l1 as [|x t1 IH]; intros l2 H1 H2 Hp.
  - apply Permutation_nil in Hp. now subst.
  - destruct l2 as [|y t2].
    + apply Permutation_sym, Permutation_nil in Hp. discriminate.
    + apply StronglySorted_inv in H1. destruct H1 as [H1 F1].
      apply StronglySorted_inv in H2. destruct H2 as [H2 F2].
      assert (E : x = y).
      { assert (Hx : In x (y :: t2))
          by (apply (Permutation_in _ Hp); now left).
        assert (Hy : In y (x :: t1))
          by (apply (Permutation_in _ (Permutation_sym Hp)); now left).
        destruct Hx as [-> | Hx]; [reflexivity |].
        destruct Hy as [-> | Hy]; [reflexivity |].
        rewrite Forall_forall in F1, F2.
        exfalso. apply (symbol_lt_irrefl x).
        apply symbol_lt_trans with y; [now apply F1 | now apply F2]. }
      subst y. f_equal. apply IH; [exact H1 | exact H2 |].
      now apply Permutation_cons_inv in Hp.
Qed.

Lemma sorted_of_Permutation (items items' : list (string * Q)) :
  NoDup (map fst items) -> Permutation items items' ->
  sorted tuple_ltb items = sorted tuple_ltb items'.
Proof.
  intros Hnd Hp.
  assert (Hnd' : NoDup (map fst items')).
  { apply (Permutation_NoDup (Permutation_map fst Hp) Hnd). }
  apply StronglySorted_unique.
  - apply Sorted_symbol_lt; [| apply (sorted_Sorted _ tuple_ltb_asym)].
    apply (Permutation_NoDup
             (Permutation_map fst (Permutation_sym (sorted_Permutation tuple_ltb items)))
             Hnd).
  - apply Sorted_symbol_lt; [| apply (sorted_Sorted _ tuple_ltb_asym)].
    apply (Permutation_NoDup
             (Permutation_map fst (Permutation_sym (sorted_Permutation tuple_ltb items')))
             Hnd').
  - apply perm_trans with items; [apply sorted_Permutation |].
    apply perm_trans with items'; [exact Hp |].
    apply Permutation_sym, sorted_Permutation.
Qed.

(** X15.  With [sort] true the result does not depend on the order in
    which the items are given, as long as no symbol occurs twice: two
    lists with the same items give the same result or the same error, and
    the items are processed by increasing symbol. *)
Theorem formatter_sort_order_independent (items items' : list (string * Q))
  (as_ratio single_denominator : bool)
  (product_fmt division_fmt power_fmt parentheses_fmt : string)
  (exp_call : FORMATTER) :
  NoDup (map fst items) ->
  Permutation items items' ->
  formatter items as_ratio single_denominator product_fmt division_fmt
    power_fmt parentheses_fmt exp_call true
  = formatter items' as_ratio single_denominator product_fmt division_fmt
      power_fmt parentheses_fmt exp_call true
  /\ StronglySorted symbol_lt (sorted tuple_ltb items).
Proof.
  intros Hnd Hp. split.
  - unfold formatter. now rewrite (sorted_of_Permutation _ _ Hnd Hp).
  - apply Sorted_symbol_lt; [| apply (sorted_Sorted _ tuple_ltb_asym)].
    apply (Permutation_NoDup
             (Permutation_map fst (Permutation_sym (sorted_Permutation tuple_ltb items)))
             Hnd).
Qed.

Lemma formatter_sort_order_independent_witness :
  formatter [("s", (-1)%Q); ("m", 1%Q); ("kg", 1%Q)] true false
    default_product_fmt default_division_fmt default_power_fmt
    default_parentheses_fmt (format_n (fun _ => "")) true
  = formatter [("kg", 1%Q); ("s", (-1)%Q); ("m", 1%Q)] true false
      default_product_fmt default_division_fmt default_power_fmt
      default_parentheses_fmt (format_n (fun _ => "")) true.
Proof.
  apply formatter_sort_order_independent.
  - simpl. repeat constructor; simpl; intuition discriminate.
  - apply Permutation_sym.
    apply (Permutation_cons_app [("s", (-1)%Q); ("m", 1%Q)] [] ("kg", 1%Q)).
    apply Permutation_refl.
Defined.

(** ** Properties of [_pretty_fmt_exponent] *)

(** A run of one-character replacements over a string acts on each
    character by itself. *)
Lemma replacements_charwise (olds news : nat -> N) (ns : list nat) :
  forall (h : N -> N) (l : list N),
    fold_left (fun ret n => replace_char (olds n) (news n) ret) ns (map h l)
    = map (fun c =>
             fold_left (fun r n => if (r =? olds n)%N then news n else r) ns (h c))
          l.
Proof.
  induction ns as [|n ns IH]; intros h l; cbn [fold_left].
  - reflexivity.
  - unfold replace_char at 2. rewrite map_map.
    apply (IH (fun c => if (h c =? olds n)%N then news n else h c)).
Qed.

Lemma replacements_miss (olds news : nat -> N) (ns : list nat) (c : N) :
  (forall n, In n ns -> c <> olds n) ->
  fold_left (fun r n => if (r =? olds n)%N then news n else r) ns c = c.
Proof.
  induction ns as [|n ns IH]; intros H; cbn [fold_left]; [reflexivity |].
  rewrite (proj2 (N.eqb_neq c (olds n))) by (apply H; now left).
  apply IH. intros m Hm. apply H. now right.
Qed.

Lemma pretty_char_steps (c : N) :
  fold_left
    (fun r n => if (r =? 48 + N.of_nat n)%N then nth n _PRETTY_EXPONENTS 0%N else r)
    (seq 0 10)
    (let r := if (c =? 45)%N then 8315%N else c in
     if (r =? 46)%N then 8901%N else r)
  = pretty_char c.
Proof.
  unfold pretty_char.
  destruct (N.eqb_spec c 45) as [-> | H45]; [reflexivity |].
  cbv zeta.
  destruct (N.eqb_spec c 46) as [-> | H46]; [reflexivity |].
  destruct (N.leb_spec 48 c) as [Hlo | Hlo];
    [destruct (N.leb_spec c 57) as [Hhi | Hhi] |]; cbn [andb].
  - assert (E : (c = 48 \/ c = 49 \/ c = 50 \/ c = 51 \/ c = 52 \/ c = 53
                 \/ c = 54 \/ c = 55 \/ c = 56 \/ c = 57)%N) by lia.
    destruct E as [-> | [-> | [-> | [-> | [-> | [-> | [-> | [-> | [-> | ->]]]]]]]]];
      reflexivity.
  - apply replacements_miss. intros n Hn. apply in_seq in Hn. lia.
  - apply replacements_miss. intros n Hn. apply in_seq in Hn. lia.
Qed.

Lemma pretty_char_not_plain (c : N) : plain_char (pretty_char c) = false.
Proof.
  unfold pretty_char.
  destruct (N.eqb_spec c 45) as [-> | H45]; [reflexivity |].
  destruct (N.eqb_spec c 46) as [-> | H46]; [reflexivity |].
  destruct (N.leb_spec 48 c) as [Hlo | Hlo];
    [destruct (N.leb_spec c 57) as [Hhi | Hhi] |]; cbn [andb].
  - assert (E : (c = 48 \/ c = 49 \/ c = 50 \/ c = 51 \/ c = 52 \/ c = 53
                 \/ c = 54 \/ c = 55 \/ c = 56 \/ c = 57)%N) by lia.
    destruct E as [-> | [-> | [-> | [-> | [-> | [-> | [-> | [-> | [-> | ->]]]]]]]]];
      reflexivity.
  - unfold plain_char.
    rewrite (proj2 (N.eqb_neq c 45) H45), (proj2 (N.eqb_neq c 46) H46).
    cbn [orb]. apply andb_false_iff. right. apply N.leb_gt. exact Hhi.
  - unfold plain_char.
    rewrite (proj2 (N.eqb_neq c 45) H45), (proj2 (N.eqb_neq c 46) H46).
    cbn [orb]. apply andb_false_iff. left. apply N.leb_gt. exact Hlo.
Qed.

Lemma pretty_fmt_exponent_map (nonintegral : FORMATTER) (num : Q) :
  _pretty_fmt_exponent nonintegral num
  = map pretty_char (code_points (format_n nonintegral num)).
Proof.
  unfold _pretty_fmt_exponent. cbv zeta.
  unfold replace_char at 2 3. rewrite map_map.
  rewrite (replacements_charwise
             (fun n => (48 + N.of_nat n)%N) (fun n => nth n _PRETTY_EXPONENTS 0%N)).
  apply map_ext. intros c. apply pretty_char_steps.
Qed.

(** X16.  The twelve replacements of [_pretty_fmt_exponent] do not
    interfere: the result is the default rendering of the number with each
    character replaced by itself, so it has the same length, and no minus
    sign, decimal point or ASCII digit is left in it. *)
Theorem pretty_fmt_exponent_charwise (nonintegral : FORMATTER) (num : Q) :
  _pretty_fmt_exponent nonintegral num
  = map pretty_char (code_points (format_n nonintegral num))
  /\ List.length (_pretty_fmt_exponent nonintegral num)
     = String.length (format_n nonintegral num)
  /\ Forall (fun c => plain_char c = false)
       (_pretty_fmt_exponent nonintegral num).
Proof.
  rewrite pretty_fmt_exponent_map. split; [reflexivity | split].
  - unfold code_points. rewrite !length_map.
    induction (format_n nonintegral num) as [|c s IH]; simpl; [reflexivity |].
    now rewrite IH.
  - apply Forall_forall. intros c Hc. apply in_map_iff in Hc.
    destruct Hc as (d & <- & _). apply pretty_char_not_plain.
Qed.

Lemma uint_decimal_chars (d : Decimal.uint) :
  Forall decimal_char (code_points (NilEmpty.string_of_uint d)).
Proof.
  unfold code_points, decimal_char.
  induction d; simpl; constructor; try exact IHd; tauto.
Qed.

Lemma int_decimal_chars (z : Z) :
  Forall decimal_char (code_points (NilZero.string_of_int (Z.to_int z))).
Proof.
  assert (U : forall d, Forall decimal_char
                          (code_points (NilZero.string_of_uint d))).
  { intros d. destruct d; try apply uint_decimal_chars.
    unfold code_points, decimal_char. simpl. constructor; [tauto | constructor]. }
  destruct (Z.to_int z) as [d | d]; simpl.
  - apply U.
  - change (code_points (String "-" (NilZero.string_of_uint d)))
      with (45%N :: code_points (NilZero.string_of_uint d)).
    constructor; [unfold decimal_char; tauto | apply U].
Qed.

Lemma format_n_integral (nonintegral : FORMATTER) (x : Q) :
  integral x ->
  format_n nonintegral x = NilZero.string_of_int (Z.to_int (Qnum (Qred x))).
Proof.
  unfold integral, format_n. intros ->. reflexivity.
Qed.

Lemma pretty_char_decimal (c : N) :
  decimal_char c -> superscript (pretty_char c).
Proof.
  unfold decimal_char, superscript.
  intros [-> | [-> | [-> | [-> | [-> | [-> | [-> | [-> | [-> | [-> | ->]]]]]]]]]];
    vm_compute; tauto.
Qed.

(** X17.  The pretty form of an integer exponent is made of superscript
    characters only: the superscript minus and the superscript digits. *)
Theorem pretty_fmt_exponent_superscript (nonintegral : FORMATTER) (num : Q) :
  integral num ->
  Forall superscript (_pretty_fmt_exponent nonintegral num).
Proof.
  intros H. rewrite pretty_fmt_exponent_map, (format_n_integral _ _ H).
  apply Forall_forall. intros c Hc. apply in_map_iff in Hc.
  destruct Hc as (d & <- & Hd). apply pretty_char_decimal.
  pose proof (int_decimal_chars (Qnum (Qred num))) as F.
  rewrite Forall_forall in F. now apply F.
Qed.

Lemma pretty_fmt_exponent_superscript_witness :
  Forall superscript (_pretty_fmt_exponent (fun _ => "") ((-12)%Q)).
Proof.
  apply pretty_fmt_exponent_superscript. reflexivity.
Defined.

Lemma pretty_char_inj (c d : N) :
  decimal_char c -> decimal_char d -> pretty_char c = pretty_char d -> c = d.
Proof.
  unfold decimal_char.
  intros [-> | [-> | [-> | [-> | [-> | [-> | [-> | [-> | [-> | [-> | ->]]]]]]]]]]
         [-> | [-> | [-> | [-> | [-> | [-> | [-> | [-> | [-> | [-> | ->]]]]]]]]]];
    vm_compute; intros H; (reflexivity || discriminate H).
Qed.

Lemma map_pretty_char_inj (l : list N) :
  forall l', Forall decimal_char l -> Forall decimal_char l' ->
             map pretty_char l = map pretty_char l' -> l = l'.
Proof.
  induction l as [|c l IH]; intros [|d l'] F F' H; try discriminate;
    [reflexivity |].
  inversion F; inversion F'; subst. simpl in H. injection H as Hc Hl.
  f_equal; [now apply pretty_char_inj | now apply IH].
Qed.

Lemma code_points_inj (s t : string) : code_points s = code_points t -> s = t.
Proof.
  unfold code_points. revert t.
  induction s as [|a s IH]; intros [|b t] H; try discriminate; [reflexivity |].
  simpl in H. injection H as Ha Hs.
  f_equal; [| now apply IH].
  rewrite <- (ascii_N_embedding a), <- (ascii_N_embedding b). now rewrite Ha.
Qed.

Lemma to_int_not_nil (z : Z) :
  Z.to_int z <> Decimal.Pos Decimal.Nil /\ Z.to_int z <> Decimal.Neg Decimal.Nil.
Proof.
  destruct z as [| p | p]; simpl; split; intros H; try discriminate;
    injection H as H; now apply DecimalPos.Unsigned.to_uint_nonnil in H.
Qed.

Lemma string_of_int_inj (a b : Z) :
  NilZero.string_of_int (Z.to_int a) = NilZero.string_of_int (Z.to_int b) ->
  a = b.
Proof.
  intros H. apply DecimalZ.to_int_inj.
  apply (f_equal NilZero.int_of_string) in H.
  destruct (to_int_not_nil a) as [A1 A2]. destruct (to_int_not_nil b) as [B1 B2].
  rewrite !NilZero.isi in H by assumption. now injection H.
Qed.

(** X18.  Integer exponents keep their identity in the pretty form: two
    integer exponents have the same pretty form exactly when they are
    equal as numbers. *)
Theorem pretty_fmt_exponent_injective (nonintegral : FORMATTER) (x y : Q) :
  integral x -> integral y ->
  (_pretty_fmt_exponent nonintegral x = _pretty_fmt_exponent nonintegral y
   <-> (x == y)%Q).
Proof.
  intros Hx Hy. rewrite !pretty_fmt_exponent_map.
  rewrite (format_n_integral _ _ Hx), (format_n_integral _ _ Hy). split.
  - intros H. apply map_pretty_char_inj in H; try apply int_decimal_chars.
    apply code_points_inj, string_of_int_inj in H.
    apply Qreduction.Qred_eq_iff.
    unfold integral in Hx, Hy.
    destruct (Qred x) as [nx dx], (Qred y) as [ny dy]. simpl in *. congruence.
  - intros H. now rewrite (Qreduction.Qred_complete _ _ H).
Qed.

Lemma pretty_fmt_exponent_injective_witness :
  _pretty_fmt_exponent (fun _ => "") (4 # 2)%Q
  = _pretty_fmt_exponent (fun _ => "") 2%Q.
Proof.
  apply (proj2 (pretty_fmt_exponent_injective (fun _ => "") (4 # 2)%Q 2%Q
                  eq_refl eq_refl)).
  reflexivity.
Defined.

(** ** [formatter] with every argument at its default *)






